(** * Image vault backend ([server/app.js]): a shallow embedding

    The service is an Express application with four handlers that sit
    between an S3 bucket and a DynamoDB table.  The embedding keeps the
    handlers as they are written: each one is a computation in a small
    state-and-exception monad whose state is the bucket, the table and
    the log of calls made to the two services; [try { .. } catch] is an
    exception handler; request bodies and stored attributes are JSON
    values, with [undefined] as the absent case of an option.

    Conventions of the model:
    - strings are sequences of 8-bit code units (the Latin-1 range of
      JavaScript's UTF-16 code units); [toLowerCase], [trim] and the
      regular expression class [\s] are the ECMAScript ones restricted
      to that range;
    - numbers are the integers among JavaScript's numbers; an integer
      beyond [Number.MAX_SAFE_INTEGER] read back from the table is a
      BigInt, which [marshall] never wrote and [JSON.stringify] refuses;
    - a call to a service that raises leaves the service unchanged;
    - a [Scan] is answered with one page, a prefix of the table whose
      length the service decides; the handler never follows the
      continuation key. *)

From Stdlib Require Import ZArith Ascii String List Bool Lia.
From stdpp Require Import base option list strings pretty gmap fin_maps fin_sets.

Local Open Scope Z_scope.

(** ** JavaScript strings *)

Module JsString.

(** [WhiteSpace] and [LineTerminator] code points below 256: what
    [String.prototype.trim] strips and what [\s] matches. *)
Definition is_white (c : ascii) : bool :=
  match N_of_ascii c with
  | 9 | 10 | 11 | 12 | 13 | 32 | 160 => true
  | _ => false
  end%N.

(** Lower-case mapping of one code unit: A-Z, and the Latin-1 capitals
    U+00C0-U+00DE except the multiplication sign U+00D7. *)
Definition lower_char (c : ascii) : ascii :=
  let n := N_of_ascii c in
  if ((65 <=? n) && (n <=? 90)
      || (192 <=? n) && (n <=? 222) && negb (n =? 215))%N
  then ascii_of_N (n + 32) else c.

(** [s.toLowerCase()] *)
Fixpoint toLowerCase (s : string) : string :=
  match s with
  | EmptyString => EmptyString
  | String c s' => String (lower_char c) (toLowerCase s')
  end.

Fixpoint trimStart (s : string) : string :=
  match s with
  | EmptyString => EmptyString
  | String c s' => if is_white c then trimStart s' else s
  end.

Definition is_empty (s : string) : bool :=
  match s with EmptyString => true | _ => false end.

Fixpoint trimEnd (s : string) : string :=
  match s with
  | EmptyString => EmptyString
  | String c s' =>
      let r := trimEnd s' in
      if is_white c && is_empty r then EmptyString else String c r
  end.

(** [s.trim()] *)
Definition trim (s : string) : string := trimEnd (trimStart s).

(** [s.startsWith(t)] *)
Fixpoint startsWith (s t : string) : bool :=
  match t, s with
  | EmptyString, _ => true
  | String _ _, EmptyString => false
  | String b t', String a s' => if ascii_dec a b then startsWith s' t' else false
  end.

(** [s.includes(t)]: [t] occurs in [s] at some position. *)
Fixpoint includes (s t : string) : bool :=
  startsWith s t ||
  match s with
  | EmptyString => false
  | String _ s' => includes s' t
  end.

(** [s.replace(/\s+/g, '-')]: every maximal run of white space becomes
    one hyphen.  [in_run] tells that the previous code unit was white
    space, whose hyphen is already out. *)
Fixpoint replace_ws_go (in_run : bool) (s : string) : string :=
  match s with
  | EmptyString => EmptyString
  | String c s' =>
      if is_white c
      then if in_run then replace_ws_go true s'
           else String "-" (replace_ws_go true s')
      else String c (replace_ws_go false s')
  end.

Definition replace_ws_hyphen (s : string) : string := replace_ws_go false s.

Definition starts_white (s : string) : bool :=
  match s with
  | EmptyString => false
  | String c _ => is_white c
  end.

(** The decimal digits, for the shape [\d+] of a rendered timestamp. *)
Definition is_digit (c : ascii) : bool :=
  let n := N_of_ascii c in ((48 <=? n) && (n <=? 57))%N.

Fixpoint all_chars (p : ascii → bool) (s : string) : bool :=
  match s with
  | EmptyString => true
  | String c s' => p c && all_chars p s'
  end.

(** [t] is a substring of [s]. *)
Definition substring_of (t s : string) : Prop :=
  ∃ pre post, s = pre +:+ t +:+ post.

End JsString.

(** ** JSON values

    A request body is what [express.json()] parsed, a stored attribute is
    what [unmarshall] gives back for what [marshall] wrote: in both cases
    a JSON value.  [undefined] is not a JSON value; it only appears as
    the result of reading a property that is not there, so a JavaScript
    value is an [option Json], [None] being [undefined]. *)

#[warnings="-register-all"] Inductive Json : Type :=
  | JNull
  | JBool (b : bool)
  | JNum (n : Z)
  | JStr (s : string)
  | JArr (elems : list Json)
  | JObj (props : list (string * Json)).

Abbreviation JsVal := (option Json).
Abbreviation JsonObject := (list (string * Json)).

(** [o.name] *)
Fixpoint get (o : JsonObject) (name : string) : JsVal :=
  match o with
  | [] => None
  | (k, v) :: o' => if String.eqb k name then Some v else get o' name
  end.

(** [Number.MAX_SAFE_INTEGER], and the numbers between it and
    [Number.MIN_SAFE_INTEGER]. *)
Definition MAX_SAFE_INTEGER : Z := 9007199254740991.

Definition safe_integer (n : Z) : bool :=
  (- MAX_SAFE_INTEGER <=? n) && (n <=? MAX_SAFE_INTEGER).

(** A value all of whose numbers, at any depth, are safe integers. *)
Fixpoint safe_json (v : Json) : bool :=
  match v with
  | JNull | JBool _ | JStr _ => true
  | JNum n => safe_integer n
  | JArr elems => forallb safe_json elems
  | JObj props => forallb (λ kv, safe_json (snd kv)) props
  end.

(** ToBoolean: [null], [false], [0], [''] and [undefined] are falsy. *)
Definition truthy (v : JsVal) : bool :=
  match v with
  | None | Some JNull | Some (JBool false) | Some (JNum 0) | Some (JStr EmptyString) => false
  | Some _ => true
  end.

(** ** express-validator

    [body(f).isString().notEmpty()] and the like: a chain names a field,
    lists validators and may be optional.  [validationResult(req)] gathers
    one error for each value that fails a validator; an optional chain
    whose field is [undefined] is skipped.  [isString] and [isArray] look at
    the value itself; [notEmpty] looks at the value's rendering as a string
    and, on an array, at each element in turn, with one error for each
    element that fails. *)

Inductive Validator : Type := IsString | NotEmpty | IsArray.

Record Chain : Type := mkChain {
  chain_field : string;
  chain_validators : list Validator;
  chain_optional : bool
}.

Record FieldError : Type := mkFieldError {
  err_location : string;
  err_path : string;
  err_value : JsVal;
  err_msg : string
}.

(** The values whose rendering as a string is empty: [undefined],
    [null], the empty string, and an array that joins to the empty
    string. *)
Fixpoint joins_empty (v : Json) : bool :=
  match v with
  | JNull | JStr EmptyString | JArr [] => true
  | JArr [elem] => joins_empty elem
  | _ => false
  end.

Definition renders_empty (v : JsVal) : bool :=
  match v with
  | None => true
  | Some v => joins_empty v
  end.

(** The values that fail a validator: the value of the field, or the
    failing elements of an array under [notEmpty]. *)
Definition failures (c : Validator) (v : JsVal) : list JsVal :=
  match c with
  | IsString => match v with Some (JStr _) => [] | _ => [v] end
  | IsArray => match v with Some (JArr _) => [] | _ => [v] end
  | NotEmpty =>
      match v with
      | Some (JArr l) => List.filter renders_empty (List.map Some l)
      | _ => if renders_empty v then [v] else []
      end
  end.

Definition run_chain (body : JsonObject) (ch : Chain) : list FieldError :=
  let v := get body (chain_field ch) in
  match v, chain_optional ch with
  | None, true => []
  | _, _ =>
      flat_map (λ c, List.map (λ x, mkFieldError "body" (chain_field ch) x "Invalid value")
                              (failures c v))
               (chain_validators ch)
  end.

Definition validationResult (chains : list Chain) (body : JsonObject) : list FieldError :=
  flat_map (run_chain body) chains.

Definition isEmpty {A} (l : list A) : bool :=
  match l with [] => true | _ => false end.

(** ** The two services *)

Record Config : Type := mkConfig {
  AWS_REGION : string;
  AWS_ACCESS_KEY_ID : string;
  AWS_SECRET_ACCESS_KEY : string;
  S3_BUCKET_NAME : string;
  DYNAMODB_TABLE_NAME : string
}.

(** Conditions of a POST policy, as the S3 SDK takes them. *)
Inductive Condition : Type :=
  | CondEq (field value : string)
  | CondStartsWith (field prefix : string)
  | CondContentLengthRange (lo hi : Z).

Record PresignedPostOptions : Type := mkPresignedPostOptions {
  Bucket : string;
  Key : string;
  Conditions : list Condition;
  Fields : list (string * string);
  Expires : Z
}.

Record PresignedPost : Type := mkPresignedPost {
  url : string;
  fields : list (string * string)
}.

Inductive Call : Type :=
  | CreatePresignedPost (opts : PresignedPostOptions)
  | PutItem (TableName : string) (Item : JsonObject)
  | Scan (TableName : string)
  | DeleteObject (bucket key : string)
  | DeleteItem (TableName : string) (imageId : string).

(** The bucket is the set of its object keys; the table maps the primary
    key [imageId] to the other attributes of the record. *)
Record World : Type := mkWorld {
  objects : gset string;
  table : gmap string JsonObject
}.

(** A record as a scan returns it. *)
Record Item : Type := mkItem {
  imageId : string;
  attrs : JsonObject
}.

(** What surrounds one request: the clock, which calls raise, the
    authorization the signer computes, and how many records the table
    puts in the one page with which it answers a [Scan]. *)
Record Env : Type := mkEnv {
  now : Z;
  raises : Call → bool;
  presigned : PresignedPostOptions → PresignedPost;
  page_limit : nat
}.

Definition without (name : string) (o : JsonObject) : JsonObject :=
  filter (λ kv, negb (String.eqb kv.1 name)) o.

(** DynamoDB takes a record whose key attribute is a non-empty string and
    replaces whatever the table holds under that key. *)
Definition put_item (it : JsonObject) (w : World) : option World :=
  match get it "imageId" with
  | Some (JStr (String _ _ as k)) =>
      Some (mkWorld (objects w) (<[k := without "imageId" it]> (table w)))
  | _ => None
  end.

(** The records of the table, in the order of a scan. *)
Definition scan_items (w : World) : list Item :=
  (λ kv, mkItem kv.1 kv.2) <$> map_to_list (table w).

(** [result.Items] of one [ScanCommand]: the first page. *)
Definition scan_page (env : Env) (w : World) : list Item :=
  take (page_limit env) (scan_items w).

Definition delete_object (k : string) (w : World) : World :=
  mkWorld (objects w ∖ {[k]}) (table w).

Definition delete_item (k : string) (w : World) : World :=
  mkWorld (objects w) (delete k (table w)).

(** ** The handler monad: state and exceptions *)

Record St : Type := mkSt {
  world : World;
  calls : list Call
}.

Inductive Res (A : Type) : Type :=
  | Ok (a : A)
  | Raise.
Arguments Ok {A} a.
Arguments Raise {A}.

Definition M (A : Type) : Type := St → Res A * St.

Definition M_ret {A} (a : A) : M A := λ st, (Ok a, st).
Definition M_bind {A B} (m : M A) (k : A → M B) : M B :=
  λ st, match m st with
        | (Ok a, st') => k a st'
        | (Raise, st') => (Raise, st')
        end.
Definition throw {A} : M A := λ st, (Raise, st).

(** [try { body } catch (error) { handler }] *)
Definition try_catch {A} (body handler : M A) : M A :=
  λ st, match body st with
        | (Ok a, st') => (Ok a, st')
        | (Raise, st') => handler st'
        end.

Declare Scope js_scope.
Delimit Scope js_scope with js.
Notation "x <- m ;; k" := (M_bind m (λ x, k))
  (at level 100, m at next level, right associativity) : js_scope.
Notation "m ;;; k" := (M_bind m (λ _, k))
  (at level 100, right associativity) : js_scope.

Definition lift {A} (r : Res A) : M A := λ st, (r, st).

(** [await client.send(command)]: the call is logged; it either raises
    or takes effect and answers. *)
Definition send {A} (env : Env) (c : Call)
    (effect : World → option World) (answer : World → A) : M A :=
  λ st,
    let st' := mkSt (world st) (calls st ++ [c]) in
    if raises env c then (Raise, st')
    else match effect (world st) with
         | Some w' => (Ok (answer (world st)), mkSt w' (calls st'))
         | None => (Raise, st')
         end.

Definition createPresignedPost (env : Env) (opts : PresignedPostOptions) : M PresignedPost :=
  send env (CreatePresignedPost opts) Some (λ _, presigned env opts).
Definition dynamo_put (env : Env) (tbl : string) (it : JsonObject) : M unit :=
  send env (PutItem tbl it) (put_item it) (λ _, tt).
Definition dynamo_scan (env : Env) (tbl : string) : M (list Item) :=
  send env (Scan tbl) Some (scan_page env).
Definition s3_delete (env : Env) (bucket k : string) : M unit :=
  send env (DeleteObject bucket k) (λ w, Some (delete_object k w)) (λ _, tt).
Definition dynamo_delete (env : Env) (tbl k : string) : M unit :=
  send env (DeleteItem tbl k) (λ w, Some (delete_item k w)) (λ _, tt).

(** ** Requests and responses *)

(** [req.query.q]: absent, a string, or what the query parser makes of
    [?q=a&q=b] and [?q[x]=a] (an array, an object). *)
Inductive Query : Type :=
  | QAbsent
  | QString (s : string)
  | QOther.

Record Request : Type := mkRequest {
  body : JsonObject;
  query_q : Query;
  ip : string
}.

(** An object literal before [res.json] serializes it: a property may
    hold [undefined]. *)
Abbreviation ObjectLiteral := (list (string * JsVal)).

Inductive Payload : Type :=
  | ValidationErrors (errors : list FieldError)
  | ErrorMessage (error : string)
  | PresignedUpload (url : string) (fields : list (string * string)) (key : string)
  | Success (message : string)
  | Images (images : list ObjectLiteral)
  | Health (timestamp : Z)
  | Banner.

Record Response : Type := mkResponse {
  status : Z;
  payload : Payload
}.

(** [res.json(p)] and [res.status(n).json(p)] *)
Definition json (p : Payload) : M Response := M_ret (mkResponse 200 p).
Definition status_json (n : Z) (p : Payload) : M Response := M_ret (mkResponse n p).

(** An object that [JSON.stringify] takes: no property holds a BigInt,
    that is, an integer beyond the safe range read from the table. *)
Definition serialisable (o : ObjectLiteral) : bool :=
  forallb (λ kv, match snd kv with Some v => safe_json v | None => true end) o.

(** [res.json(imagesWithUrls)], which raises when an object cannot be
    serialised. *)
Definition json_images (images : list ObjectLiteral) : M Response :=
  if forallb serialisable images then json (Images images) else throw.

(** ** The handlers *)

Import JsString.
Local Open Scope js_scope.

Definition Res_bind {A B} (r : Res A) (k : A → Res B) : Res B :=
  match r with
  | Ok a => k a
  | Raise => Raise
  end.

(** [a || b] *)
Definition js_or (a : JsVal) (b : Json) : JsVal :=
  if truthy a then a else Some b.

(** [marshall(obj)] refuses an object with an [undefined] property and
    an object holding, at any depth, a number beyond the safe range. *)
Fixpoint marshall (o : ObjectLiteral) : Res JsonObject :=
  match o with
  | [] => Ok []
  | (k, Some v) :: o' =>
      if safe_json v then Res_bind (marshall o') (λ r, Ok ((k, v) :: r)) else Raise
  | (_, None) :: _ => Raise
  end.

(** [fileName.replace(/\s+/g, '-')]: a method of strings only. *)
Definition js_replace_ws (v : JsVal) : Res string :=
  match v with
  | Some (JStr s) => Ok (replace_ws_hyphen s)
  | _ => Raise
  end.

(** A [Key] handed to a command is a string; the commands take nothing
    else, and validation lets nothing else through. *)
Definition key_string (v : JsVal) : Res string :=
  match v with
  | Some (JStr s) => Ok s
  | _ => Raise
  end.

Definition generate_presigned_url_chains : list Chain :=
  [mkChain "fileName" [IsString; NotEmpty] false;
   mkChain "fileType" [IsString; NotEmpty] false].

Definition generate_presigned_url (cfg : Config) (env : Env) (req : Request) : M Response :=
  try_catch
    (let errors := validationResult generate_presigned_url_chains (body req) in
     if negb (isEmpty errors) then status_json 400 (ValidationErrors errors)
     else
       let fileName := get (body req) "fileName" in
       sanitized <- lift (js_replace_ws fileName) ;;
       let key := "images/" +:+ pretty (now env) +:+ "-" +:+ sanitized in
       post <- createPresignedPost env
                 {| Bucket := S3_BUCKET_NAME cfg;
                    Key := key;
                    Conditions := [CondContentLengthRange 0 10485760];
                    Fields := [];
                    Expires := 300 |} ;;
       json (PresignedUpload (url post) (fields post) key))
    (status_json 500 (ErrorMessage "Failed to generate upload URL")).

Definition save_metadata_chains : list Chain :=
  [mkChain "key" [IsString; NotEmpty] false;
   mkChain "caption" [IsString] true;
   mkChain "tags" [IsArray] true].

(** The object literal [item] of the save handler. *)
Definition save_item (env : Env) (req : Request) : ObjectLiteral :=
  let key := get (body req) "key" in
  let caption := get (body req) "caption" in
  let tags := get (body req) "tags" in
  [("imageId", key);
   ("caption", js_or caption (JStr ""));
   ("tags", js_or tags (JArr []));
   ("uploadTime", Some (JNum (now env)));
   ("uploaderId", Some (JStr (ip req)))].

Definition save_metadata (cfg : Config) (env : Env) (req : Request) : M Response :=
  try_catch
    (let errors := validationResult save_metadata_chains (body req) in
     if negb (isEmpty errors) then status_json 400 (ValidationErrors errors)
     else
       let item := save_item env req in
       marshalled <- lift (marshall item) ;;
       dynamo_put env (DYNAMODB_TABLE_NAME cfg) marshalled ;;;
       json (Success "Metadata saved"))
    (status_json 500 (ErrorMessage "Failed to save metadata")).

(** [item => ({ key: item.imageId, ..., presignedGetUrl: `https://...` })] *)
Definition image_with_url (cfg : Config) (item : Item) : ObjectLiteral :=
  [("key", Some (JStr (imageId item)));
   ("caption", get (attrs item) "caption");
   ("tags", get (attrs item) "tags");
   ("uploadTime", get (attrs item) "uploadTime");
   ("presignedGetUrl",
    Some (JStr ("https://" +:+ S3_BUCKET_NAME cfg +:+ ".s3." +:+ AWS_REGION cfg
                +:+ ".amazonaws.com/" +:+ imageId item)))].

(** [tag => tag && tag.toLowerCase().includes(searchTerm)], as a truth
    value; [toLowerCase] is a method of strings only. *)
Definition tag_matches (searchTerm : string) (tag : Json) : Res bool :=
  if truthy (Some tag) then
    match tag with
    | JStr s => Ok (includes (toLowerCase s) searchTerm)
    | _ => Raise
    end
  else Ok false.

(** [array.some(f)] *)
Fixpoint some {A} (f : A → Res bool) (l : list A) : Res bool :=
  match l with
  | [] => Ok false
  | x :: l' => Res_bind (f x) (λ b, if b then Ok true else some f l')
  end.

(** [array.filter(f)] *)
Fixpoint filter_array {A} (f : A → Res bool) (l : list A) : Res (list A) :=
  match l with
  | [] => Ok []
  | x :: l' =>
      Res_bind (f x) (λ b,
      Res_bind (filter_array f l') (λ r,
      Ok (if b then x :: r else r)))
  end.

(** The callback of [items.filter]: both matches are computed, then
    [captionMatch || tagsMatch]. *)
Definition item_matches (searchTerm : string) (item : Item) : Res bool :=
  let caption := get (attrs item) "caption" in
  let tags := get (attrs item) "tags" in
  Res_bind
    (if truthy caption then
       match caption with
       | Some (JStr s) => Ok (includes (toLowerCase s) searchTerm)
       | _ => Raise
       end
     else Ok false)
    (λ captionMatch,
  Res_bind
    (if truthy tags then
       match tags with
       | Some (JArr l) => some (tag_matches searchTerm) l
       | _ => Raise
       end
     else Ok false)
    (λ tagsMatch, Ok (captionMatch || tagsMatch))).

Definition search (cfg : Config) (env : Env) (req : Request) : M Response :=
  try_catch
    (let q := query_q req in
     items <- dynamo_scan env (DYNAMODB_TABLE_NAME cfg) ;;
     match q with
     | QAbsent => json_images (image_with_url cfg <$> items)
     | QOther => throw
     | QString s =>
         if is_empty s || is_empty (trim s)
         then json_images (image_with_url cfg <$> items)
         else
           let searchTerm := trim (toLowerCase s) in
           filteredItems <- lift (filter_array (item_matches searchTerm) items) ;;
           json_images (image_with_url cfg <$> filteredItems)
     end)
    (status_json 500 (ErrorMessage "Search failed")).

Definition delete_image_chains : list Chain :=
  [mkChain "key" [IsString; NotEmpty] false].

Definition delete_image (cfg : Config) (env : Env) (req : Request) : M Response :=
  try_catch
    (let errors := validationResult delete_image_chains (body req) in
     if negb (isEmpty errors) then status_json 400 (ValidationErrors errors)
     else
       key <- lift (key_string (get (body req) "key")) ;;
       s3_delete env (S3_BUCKET_NAME cfg) key ;;;
       dynamo_delete env (DYNAMODB_TABLE_NAME cfg) key ;;;
       json (Success "Image deleted"))
    (status_json 500 (ErrorMessage "Failed to delete image")).

Definition health (env : Env) : M Response := json (Health (now env)).
Definition root : M Response := M_ret (mkResponse 200 Banner).

Inductive Route : Type :=
  | PostGeneratePresignedUrl
  | PostSaveMetadata
  | GetSearch
  | PostDeleteImage
  | GetHealth
  | GetRoot.

Definition handle (cfg : Config) (env : Env) (r : Route) (req : Request) : M Response :=
  match r with
  | PostGeneratePresignedUrl => generate_presigned_url cfg env req
  | PostSaveMetadata => save_metadata cfg env req
  | GetSearch => search cfg env req
  | PostDeleteImage => delete_image cfg env req
  | GetHealth => health env
  | GetRoot => root
  end.

(** One request served from a given state of the services, with an empty
    call log. *)
Definition serve (m : M Response) (w : World) : Res Response * St :=
  m (mkSt w []).

(** ** Vocabulary of the specification *)

(** "White space replaced by hyphens": code units that are not white
    space stay, and a maximal run of white space gives one hyphen. *)
Inductive Hyphenated : string → string → Prop :=
  | hyph_end : Hyphenated "" ""
  | hyph_keep c s t :
      is_white c = false →
      Hyphenated s t →
      Hyphenated (String c s) (String c t)
  | hyph_run c run s t :
      is_white c = true →
      all_chars is_white run = true →
      starts_white s = false →
      Hyphenated s t →
      Hyphenated (String c (run +:+ s)) (String "-" t).

(** The other reading, one hyphen for each white space code unit; the
    two agree on a name without two white space code units in a row. *)
Fixpoint hyphen_each (s : string) : string :=
  match s with
  | EmptyString => EmptyString
  | String c s' => String (if is_white c then "-"%char else c) (hyphen_each s')
  end.

Fixpoint no_double_white (s : string) : bool :=
  match s with
  | String a (String b _ as s') => negb (is_white a && is_white b) && no_double_white s'
  | _ => true
  end.

(** A record of the data model: a string caption and strings as tags. *)
Definition strings_of (l : list Json) : option (list string) :=
  mapM (λ v, match v with JStr s => Some s | _ => None end) l.

Definition caption_of (item : Item) : option string :=
  match get (attrs item) "caption" with
  | Some (JStr s) => Some s
  | _ => None
  end.

Definition tags_of (item : Item) : option (list string) :=
  match get (attrs item) "tags" with
  | Some (JArr l) => strings_of l
  | _ => None
  end.

Definition well_typed (item : Item) : Prop :=
  is_Some (caption_of item) ∧ is_Some (tags_of item).

(** "The term is a substring of the lower-cased caption or of some
    lower-cased tag." *)
Definition term_matches (term : string) (item : Item) : Prop :=
  (∃ c, caption_of item = Some c ∧ substring_of term (toLowerCase c))
  ∨ (∃ ts t, tags_of item = Some ts ∧ t ∈ ts ∧ substring_of term (toLowerCase t)).

Definition term_matchesb (term : string) (item : Item) : bool :=
  match caption_of item with
  | Some c => includes (toLowerCase c) term
  | None => false
  end
  || match tags_of item with
     | Some ts => existsb (λ t, includes (toLowerCase t) term) ts
     | None => false
     end.

(** A query that selects everything: absent, or blank. *)
Definition blank (q : Query) : bool :=
  match q with
  | QAbsent => true
  | QString s => all_chars is_white s
  | QOther => false
  end.

(** The validated routes with their chains; a required field is the
    field of a chain that is not optional. *)
Definition chains_of (r : Route) : list Chain :=
  match r with
  | PostGeneratePresignedUrl => generate_presigned_url_chains
  | PostSaveMetadata => save_metadata_chains
  | PostDeleteImage => delete_image_chains
  | GetSearch | GetHealth | GetRoot => []
  end.

Definition required_fields (r : Route) : list string :=
  chain_field <$> filter (λ ch, chain_optional ch = false) (chains_of r).

(** A field as a required field must be: present, a string, not empty. *)
Definition nonempty_string (v : JsVal) : bool :=
  match v with
  | Some (JStr (String _ _)) => true
  | _ => false
  end.

(** An optional field: missing, or of the type its chain checks. *)
Definition optional_string (v : JsVal) : bool :=
  match v with
  | None | Some (JStr _) => true
  | _ => false
  end.

Definition optional_array (v : JsVal) : bool :=
  match v with
  | None | Some (JArr _) => true
  | _ => false
  end.

(** The supplied value, or a default when the field is missing. *)
Definition supplied_or (d : Json) (v : JsVal) : Json :=
  match v with
  | Some x => x
  | None => d
  end.

(** The record of the data model for a request to the recorder, less its
    key: a missing caption is the empty string, missing tags are the
    empty sequence, the time is the server's, the uploader is the
    caller's address. *)
Definition written_attrs (env : Env) (req : Request) : JsonObject :=
  [("caption", supplied_or (JStr "") (get (body req) "caption"));
   ("tags", supplied_or (JArr []) (get (body req) "tags"));
   ("uploadTime", JNum (now env));
   ("uploaderId", JStr (ip req))].

Definition with_credentials (id secret : string) (cfg : Config) : Config :=
  {| AWS_REGION := AWS_REGION cfg;
     AWS_ACCESS_KEY_ID := id;
     AWS_SECRET_ACCESS_KEY := secret;
     S3_BUCKET_NAME := S3_BUCKET_NAME cfg;
     DYNAMODB_TABLE_NAME := DYNAMODB_TABLE_NAME cfg |}.

(** A call log without a write to the table. *)
Definition no_put (cs : list Call) : Prop :=
  ∀ tbl item, PutItem tbl item ∉ cs.

Definition record_fields : list string :=
  ["imageId"; "caption"; "tags"; "uploadTime"; "uploaderId"].

Definition result_fields : list string :=
  ["key"; "caption"; "tags"; "uploadTime"; "presignedGetUrl"].

(** Every number the record of a request would hold is a safe integer:
    what [marshall] asks of the item before it is put. *)
Definition storable (env : Env) (req : Request) : bool :=
  forallb (λ kv, safe_json (snd kv)) (written_attrs env req).

(** A table none of whose records holds a number beyond the safe range,
    as every table written through the recorder is. *)
Definition safe_item (item : Item) : bool :=
  forallb (λ kv, safe_json (snd kv)) (attrs item).

Definition safe_table (w : World) : bool :=
  forallb safe_item (scan_items w).

(** The table fits in the page of a scan. *)
Definition one_page (env : Env) (w : World) : Prop :=
  (length (scan_items w) ≤ page_limit env)%nat.

(** ** Sample data *)

Definition demo_config : Config :=
  mkConfig "eu-west-1" "AKIDEXAMPLE" "wJalrEXAMPLEKEY" "vault" "images".

Definition quiet : Call → bool := λ _, false.

Definition demo_env : Env :=
  mkEnv 1700000000000 quiet
        (λ o, mkPresignedPost "https://vault.s3.amazonaws.com/" [("key", Key o)]) 1000.

Definition later_env : Env :=
  mkEnv 1700000005000 quiet (presigned demo_env) 1000.

(** An environment in which the table refuses deletes. *)
Definition table_down_env : Env :=
  mkEnv 1700000000000
        (λ c, match c with DeleteItem _ _ => true | _ => false end)
        (presigned demo_env) 1000.

Definition empty_world : World := mkWorld ∅ ∅.

Definition post (b : JsonObject) : Request := mkRequest b QAbsent "203.0.113.7".
Definition query (s : string) : Request := mkRequest [] (QString s) "203.0.113.7".

Definition world_after (r : Res Response * St) : World := world r.2.

(** The table after [save-metadata {key: "images/1-a.png", tags: [5]}]. *)
Definition numeric_tag_world : World :=
  world_after (serve (save_metadata demo_config demo_env
                 (post [("key", JStr "images/1-a.png"); ("tags", JArr [JNum 5])]))
               empty_world).

(** The record that [?q=sunset] finds in [beach_world], below. *)
Definition sunset_item : Item :=
  mkItem "images/2-b.png"
    [("caption", JStr "Sunset at the Beach"); ("tags", JArr [JStr "sea"]);
     ("uploadTime", JNum 1700000000000); ("uploaderId", JStr "203.0.113.7")].

Definition sunset_images : list ObjectLiteral :=
  [image_with_url demo_config sunset_item].

Definition beach_world : World :=
  world_after (serve (save_metadata demo_config demo_env
                 (post [("key", JStr "images/2-b.png"); ("caption", JStr "Sunset at the Beach");
                        ("tags", JArr [JStr "sea"])]))
    (world_after (serve (save_metadata demo_config demo_env
                 (post [("key", JStr "images/1-a.png"); ("caption", JStr "Dunes");
                        ("tags", JArr [JStr "Beach"; JStr "sand"])]))
    (world_after (serve (save_metadata demo_config demo_env
                 (post [("key", JStr "images/3-c.png"); ("caption", JStr "City")]))
               empty_world))))).

(** ** Vocabulary for the behaviour of the routes *)

(** The message each handler's [catch] block sends with status 500. *)
Definition route_error_message (r : Route) : string :=
  match r with
  | PostGeneratePresignedUrl => "Failed to generate upload URL"
  | PostSaveMetadata => "Failed to save metadata"
  | GetSearch => "Search failed"
  | PostDeleteImage => "Failed to delete image"
  | GetHealth | GetRoot => ""
  end.

(** The routes under [/api]. *)
Definition api_route (r : Route) : bool :=
  match r with
  | GetHealth | GetRoot => false
  | _ => true
  end.

(** What the chains of a route ask of a body, field by field. *)
Definition accepted (r : Route) (b : JsonObject) : bool :=
  match r with
  | PostGeneratePresignedUrl =>
      nonempty_string (get b "fileName") && nonempty_string (get b "fileType")
  | PostSaveMetadata =>
      nonempty_string (get b "key") && optional_string (get b "caption")
      && optional_array (get b "tags")
  | PostDeleteImage => nonempty_string (get b "key")
  | GetSearch | GetHealth | GetRoot => true
  end.

(** A value the guards of the search filter let through: falsy, or a
    string. *)
Definition falsy_or_string (v : JsVal) : bool :=
  negb (truthy v) || match v with Some (JStr _) => true | _ => false end.

(** A record on which the filter's callback cannot raise: the caption is
    missing, falsy or a string; the tags are missing, falsy, or an array
    of values each falsy or a string. *)
Definition tolerated_tags (v : JsVal) : bool :=
  match v with
  | Some (JArr l) => forallb (λ t, falsy_or_string (Some t)) l
  | _ => negb (truthy v)
  end.

Definition tolerated (item : Item) : bool :=
  falsy_or_string (get (attrs item) "caption")
  && tolerated_tags (get (attrs item) "tags").

(** The query of a request, replaced. *)
Definition with_query (q : Query) (req : Request) : Request :=
  mkRequest (body req) q (ip req).

(** Both services refuse every call. *)
Definition outage_env : Env :=
  mkEnv 1700000000000 (λ _, true) (presigned demo_env) 1000.

(** A record whose second tag is a number, behind a first tag that is a
    string. *)
Definition mixed_tags_item : Item :=
  mkItem "images/4-d.png"
    [("caption", JStr "Harbour"); ("tags", JArr [JStr "Beach"; JNum 5]);
     ("uploadTime", JNum 1700000000000); ("uploaderId", JStr "203.0.113.7")].

(** A table holding a record without caption and tags, and one whose
    caption is [null] and whose tags hold an empty string and [null]. *)
Definition sparse_world : World :=
  mkWorld ∅ (<["images/5-e.png" := [("uploadTime", JNum 1)]]>
            (<["images/6-f.png" := [("caption", JNull);
                                    ("tags", JArr [JStr ""; JNull; JStr "Pier"])]]> ∅)).

(** A table with a record, written by another client, whose time is
    beyond [Number.MAX_SAFE_INTEGER]. *)
Definition big_number_world : World :=
  mkWorld ∅ (<["images/8-h.png" := [("caption", JStr "Harbour"); ("tags", JArr []);
                                    ("uploadTime", JNum 9007199254740993)]]> ∅).

(** An environment whose scans answer with pages of one record. *)
Definition short_page_env : Env :=
  mkEnv 1700000000000 quiet (presigned demo_env) 1.

(** * Properties *)

(** Unfolding of the operations of the handler monad, for the lemmas
    that run a handler. *)
Ltac unfold_js :=
  unfold M_bind, lift, createPresignedPost, dynamo_put, dynamo_scan, s3_delete,
    dynamo_delete, send, json_images, json, status_json, M_ret, throw.

Ltac run_handler h :=
  unfold serve, h, try_catch; cbv zeta.

(** ** Strings *)

Section StringFacts.

Lemma app_cons c s t : String c s +:+ t = String c (s +:+ t).
Proof. reflexivity. Qed.

Lemma app_empty t : "" +:+ t = t.
Proof. reflexivity. Qed.

Lemma length_app s t :
  String.length (s +:+ t) = (String.length s + String.length t)%nat.
Proof. induction s as [|c s IH]; [done|]. rewrite app_cons. simpl. by rewrite IH. Qed.

Lemma is_white_lower_char c : is_white (lower_char c) = is_white c.
Proof. destruct c as [[] [] [] [] [] [] [] []]; reflexivity. Qed.

Lemma all_white_toLowerCase s :
  all_chars is_white (toLowerCase s) = all_chars is_white s.
Proof.
  induction s as [|c s IH]; simpl; [done|].
  by rewrite is_white_lower_char, IH.
Qed.

Lemma all_white_trimStart s :
  all_chars is_white (trimStart s) = all_chars is_white s.
Proof.
  induction s as [|c s IH]; simpl; [done|].
  destruct (is_white c) eqn:Hc; simpl; [done|]. by rewrite Hc.
Qed.

Lemma trimEnd_empty s : is_empty (trimEnd s) = all_chars is_white s.
Proof.
  induction s as [|c s IH]; simpl; [done|].
  rewrite <- IH. by destruct (is_white c), (is_empty (trimEnd s)).
Qed.

Lemma trim_empty s : is_empty (trim s) = all_chars is_white s.
Proof. unfold trim. by rewrite trimEnd_empty, all_white_trimStart. Qed.

(** The test [!q || q.trim() === ''] on a string. *)
Lemma blank_test s : is_empty s || is_empty (trim s) = all_chars is_white s.
Proof. rewrite trim_empty. by destruct s. Qed.

(** A query that is not blank gives a search term that is not empty. *)
Lemma search_term_empty s :
  is_empty (trim (toLowerCase s)) = all_chars is_white s.
Proof. by rewrite trim_empty, all_white_toLowerCase. Qed.

Lemma startsWith_spec s t : startsWith s t = true ↔ ∃ post, s = t +:+ post.
Proof.
  revert s. induction t as [|b t IH]; intros s; simpl.
  - split; [intros _; by exists s | by destruct s].
  - destruct s as [|a s]; simpl.
    + split; [done | intros [post H]; discriminate H].
    + destruct (ascii_dec a b) as [->|Hne].
      * rewrite IH. split; intros [post H]; exists post.
        -- by rewrite app_cons, H.
        -- rewrite app_cons in H. by injection H.
      * split; [done|]. intros [post H]. rewrite app_cons in H.
        injection H as H1 _. by destruct Hne.
Qed.

Lemma includes_spec s t : includes s t = true ↔ substring_of t s.
Proof.
  unfold substring_of. induction s as [|a s IH]; cbn [includes].
  - rewrite orb_false_r, startsWith_spec. split.
    + intros [post H]. by exists "", post.
    + intros (pre & post & H). destruct pre; [by exists post | discriminate H].
  - rewrite orb_true_iff, IH, startsWith_spec. split.
    + intros [[post H] | (pre & post & H)].
      * by exists "", post.
      * exists (String a pre), post. by rewrite app_cons, H.
    + intros (pre & post & H). destruct pre as [|c pre].
      * left. by exists post.
      * right. rewrite app_cons in H. injection H as _ H. by exists pre, post.
Qed.

Lemma includes_empty_haystack t : is_empty t = false → includes "" t = false.
Proof. by destruct t. Qed.

(** The white space of a file name is gone after the replacement. *)
Lemma replace_ws_go_no_white b s :
  all_chars (λ c, negb (is_white c)) (replace_ws_go b s) = true.
Proof.
  revert b. induction s as [|c s IH]; intros b; simpl; [done|].
  destruct (is_white c) eqn:Hc.
  - destruct b; simpl; by rewrite ?IH.
  - simpl. by rewrite Hc, IH.
Qed.

Lemma replace_ws_go_white_run run s :
  all_chars is_white run = true →
  replace_ws_go true (run +:+ s) = replace_ws_go true s.
Proof.
  induction run as [|c run IH]; simpl; [done|].
  intros [Hc Hrun]%andb_prop. rewrite Hc. auto.
Qed.

Lemma replace_ws_go_after_run s :
  starts_white s = false →
  replace_ws_go true s = replace_ws_go false s.
Proof. destruct s as [|c s]; simpl; [done|]. by intros ->. Qed.

(** Splitting a string after its leading white space. *)
Lemma split_white_run s :
  ∃ run rest, s = run +:+ rest ∧ all_chars is_white run = true
    ∧ starts_white rest = false.
Proof.
  induction s as [|c s (run & rest & -> & Hrun & Hrest)].
  - by exists "", "".
  - destruct (is_white c) eqn:Hc.
    + exists (String c run), rest. simpl. by rewrite Hc, Hrun.
    + exists "", (String c (run +:+ rest)). by simpl.
Qed.

Lemma replace_ws_hyphenated s : Hyphenated s (replace_ws_hyphen s).
Proof.
  unfold replace_ws_hyphen.
  induction s as [s IH] using (well_founded_induction
    (well_founded_ltof _ String.length)).
  destruct s as [|c s]; simpl; [constructor|].
  destruct (is_white c) eqn:Hc.
  - destruct (split_white_run s) as (run & rest & -> & Hrun & Hrest).
    rewrite replace_ws_go_white_run, replace_ws_go_after_run by done.
    apply hyph_run; [done..|]. apply IH. unfold ltof.
    cbn [String.length]. rewrite length_app. lia.
  - apply hyph_keep; [done|]. apply IH. unfold ltof. cbn [String.length]. lia.
Qed.

Lemma replace_ws_go_each b s :
  no_double_white s = true →
  (b = true → starts_white s = false) →
  replace_ws_go b s = hyphen_each s.
Proof.
  revert b. induction s as [|c s IH]; intros b Hs Hb; simpl; [done|].
  assert (no_double_white s = true) as Hs'.
  { destruct s; [done|]. simpl in Hs. by apply andb_prop in Hs as [_ ?]. }
  destruct (is_white c) eqn:Hc.
  - destruct b; [simpl in Hb; rewrite Hb in Hc; [done|done]|].
    f_equal. apply IH; [done|]. intros _.
    destruct s as [|d s]; [done|]. simpl in Hs |- *. rewrite Hc in Hs.
    by destruct (is_white d).
  - f_equal. apply IH; [done|]. done.
Qed.

(** On a name without two white space code units in a row, the
    replacement is the one-for-one replacement. *)
Lemma replace_ws_hyphen_each s :
  no_double_white s = true → replace_ws_hyphen s = hyphen_each s.
Proof. intros Hs. by apply replace_ws_go_each. Qed.

(** A run of white space gives one hyphen, not one for each code unit. *)
Example replace_ws_collapses :
  replace_ws_hyphen "cat  pic.png" = "cat-pic.png"
  ∧ hyphen_each "cat  pic.png" = "cat--pic.png".
Proof. by split. Qed.

End StringFacts.

(** ** The rendering of a timestamp *)

Section Timestamp.

Lemma pretty_N_char_digit x : is_digit (pretty_N_char x) = true.
Proof. unfold pretty_N_char. by repeat case_match. Qed.

Lemma pretty_N_go_digits x s :
  all_chars is_digit s = true → all_chars is_digit (pretty_N_go x s) = true.
Proof.
  revert s. induction (N.lt_wf_0 x) as [x _ IH]; intros s Hs.
  destruct (decide (x = 0)%N) as [->|Hx]; [by rewrite pretty_N_go_0|].
  rewrite pretty_N_go_step by lia. apply IH; [apply N.div_lt; lia|].
  cbn [all_chars]. by rewrite pretty_N_char_digit, Hs.
Qed.

Lemma pretty_N_go_nonempty x s :
  is_empty s = false → is_empty (pretty_N_go x s) = false.
Proof.
  revert s. induction (N.lt_wf_0 x) as [x _ IH]; intros s Hs.
  destruct (decide (x = 0)%N) as [->|Hx]; [by rewrite pretty_N_go_0|].
  rewrite pretty_N_go_step by lia. apply IH; [apply N.div_lt; lia|done].
Qed.

Lemma pretty_N_digits (x : N) :
  all_chars is_digit (pretty x) = true ∧ is_empty (pretty x) = false.
Proof.
  unfold pretty, pretty_N. case_decide as Hx; [done|]. split.
  - by apply pretty_N_go_digits.
  - rewrite pretty_N_go_step by lia. by apply pretty_N_go_nonempty.
Qed.

(** [`${Date.now()}`] is a non-empty run of decimal digits. *)
Lemma pretty_Z_digits (z : Z) :
  0 ≤ z → all_chars is_digit (pretty z) = true ∧ is_empty (pretty z) = false.
Proof.
  destruct z as [|p|p]; [done| |lia]. intros _. apply (pretty_N_digits (Npos p)).
Qed.

End Timestamp.

(** ** Validation *)

Section Validation.

Lemma generate_validation b :
  isEmpty (validationResult generate_presigned_url_chains b)
  = nonempty_string (get b "fileName") && nonempty_string (get b "fileType").
Proof.
  unfold validationResult, generate_presigned_url_chains, run_chain. simpl.
  destruct (get b "fileName") as [[| | |[|]| |]|]; simpl; try done;
    destruct (get b "fileType") as [[| | |[|]| |]|]; simpl; done.
Qed.

Lemma save_validation b :
  isEmpty (validationResult save_metadata_chains b)
  = nonempty_string (get b "key") && optional_string (get b "caption")
    && optional_array (get b "tags").
Proof.
  unfold validationResult, save_metadata_chains, run_chain. simpl.
  destruct (get b "key") as [[| | |[|]| |]|]; simpl; try done;
    destruct (get b "caption") as [[]|]; simpl; try done;
    destruct (get b "tags") as [[]|]; simpl; done.
Qed.

Lemma delete_validation b :
  isEmpty (validationResult delete_image_chains b) = nonempty_string (get b "key").
Proof.
  unfold validationResult, delete_image_chains, run_chain. simpl.
  destruct (get b "key") as [[| | |[|]| |]|]; simpl; done.
Qed.

Lemma isEmpty_nil {A} (l : list A) : isEmpty l = true ↔ l = [].
Proof. by destruct l. Qed.

Lemma nonempty_string_inv v :
  nonempty_string v = true → ∃ s, v = Some (JStr s) ∧ is_empty s = false.
Proof. destruct v as [[| | |[|]| |]|]; try done. intros _. by eexists. Qed.

Lemma required_fields_eq r :
  required_fields r =
  match r with
  | PostGeneratePresignedUrl => ["fileName"; "fileType"]
  | PostSaveMetadata | PostDeleteImage => ["key"]
  | GetSearch | GetHealth | GetRoot => []
  end.
Proof. by destruct r. Qed.

(** A required field that is not a non-empty string fails validation. *)
Lemma required_field_rejected r f b :
  f ∈ required_fields r →
  nonempty_string (get b f) = false →
  isEmpty (validationResult (chains_of r) b) = false.
Proof.
  rewrite required_fields_eq. intros Hf Hv. destruct r;
    try (by apply elem_of_nil in Hf);
    cbn [chains_of].
  - rewrite generate_validation.
    apply elem_of_cons in Hf as [->|Hf]; [by rewrite Hv|].
    apply elem_of_cons in Hf as [->|Hf]; [by rewrite Hv, andb_false_r|].
    by apply elem_of_nil in Hf.
  - rewrite save_validation.
    apply elem_of_cons in Hf as [->|Hf]; [by rewrite Hv|].
    by apply elem_of_nil in Hf.
  - rewrite delete_validation.
    apply elem_of_cons in Hf as [->|Hf]; [by rewrite Hv|].
    by apply elem_of_nil in Hf.
Qed.

End Validation.

(** ** Upload URL issuer *)

Section UploadUrl.

Variables (cfg : Config) (env : Env).

(** What the handler does on a request that passes validation: one
    request for an authorization, answered or refused. *)
Lemma generate_run req w fileName :
  isEmpty (validationResult generate_presigned_url_chains (body req)) = true →
  get (body req) "fileName" = Some (JStr fileName) →
  let key := "images/" +:+ pretty (now env) +:+ "-" +:+ replace_ws_hyphen fileName in
  let opts := {| Bucket := S3_BUCKET_NAME cfg; Key := key;
                 Conditions := [CondContentLengthRange 0 10485760];
                 Fields := []; Expires := 300 |} in
  serve (generate_presigned_url cfg env req) w =
  (Ok (if raises env (CreatePresignedPost opts)
       then mkResponse 500 (ErrorMessage "Failed to generate upload URL")
       else mkResponse 200
              (PresignedUpload (url (presigned env opts)) (fields (presigned env opts)) key)),
   mkSt w [CreatePresignedPost opts]).
Proof.
  intros Hval Hname. run_handler generate_presigned_url. rewrite Hval, Hname.
  unfold_js. simpl.
  by destruct (raises env _).
Qed.

End UploadUrl.

(** C2. For a request with a non-empty string [fileName] (and
    [fileType]) served at time [now], the key for which the upload
    authorization is requested, and which a successful response carries,
    is ["images/"], the decimal timestamp, a hyphen, and the file name
    with each run of white space replaced by a hyphen; the timestamp of
    a clock not before the epoch is a non-empty run of digits, and for
    ["cat pic.png"] the key is [images/<digits>-cat-pic.png]. *)
Theorem C2_issued_key_format cfg env req w fileName :
  get (body req) "fileName" = Some (JStr fileName) →
  is_empty fileName = false →
  nonempty_string (get (body req) "fileType") = true →
  ∃ key digits sanitized opts,
    key = "images/" +:+ digits +:+ "-" +:+ sanitized
    ∧ digits = pretty (now env)
    ∧ (0 ≤ now env → is_empty digits = false ∧ all_chars is_digit digits = true)
    ∧ Hyphenated fileName sanitized
    ∧ all_chars (λ c, negb (is_white c)) sanitized = true
    ∧ (fileName = "cat pic.png" → key = "images/" +:+ digits +:+ "-cat-pic.png")
    ∧ Key opts = key
    ∧ (serve (generate_presigned_url cfg env req) w).2 = mkSt w [CreatePresignedPost opts]
    ∧ (raises env (CreatePresignedPost opts) = false →
       (serve (generate_presigned_url cfg env req) w).1
       = Ok (mkResponse 200 (PresignedUpload (url (presigned env opts))
                                              (fields (presigned env opts)) key))).
Proof.
  intros Hname Hne Htype.
  assert (isEmpty (validationResult generate_presigned_url_chains (body req)) = true) as Hval.
  { rewrite generate_validation, Hname, Htype. by destruct fileName. }
  pose proof (generate_run cfg env req w fileName Hval Hname) as Hrun.
  cbv zeta in Hrun.
  eexists _, (pretty (now env)), (replace_ws_hyphen fileName),
    {| Bucket := S3_BUCKET_NAME cfg; Key := _;
       Conditions := [CondContentLengthRange 0 10485760]; Fields := []; Expires := 300 |}.
  split; [reflexivity|]. split; [reflexivity|].
  split. { intros Hnow. by destruct (pretty_Z_digits (now env) Hnow). }
  split; [apply replace_ws_hyphenated|].
  split; [apply replace_ws_go_no_white|].
  split; [by intros ->|].
  split; [reflexivity|].
  rewrite Hrun. split; [done|].
  cbn [fst]. by intros ->.
Qed.

Lemma C2_issued_key_format_witness :
  ∃ key digits sanitized opts,
    key = "images/" +:+ digits +:+ "-" +:+ sanitized
    ∧ digits = pretty (now demo_env)
    ∧ (0 ≤ now demo_env → is_empty digits = false ∧ all_chars is_digit digits = true)
    ∧ Hyphenated "cat pic.png" sanitized
    ∧ all_chars (λ c, negb (is_white c)) sanitized = true
    ∧ ("cat pic.png" = "cat pic.png" → key = "images/" +:+ digits +:+ "-cat-pic.png")
    ∧ Key opts = key
    ∧ (serve (generate_presigned_url demo_config demo_env
                (post [("fileName", JStr "cat pic.png"); ("fileType", JStr "image/png")]))
             empty_world).2 = mkSt empty_world [CreatePresignedPost opts]
    ∧ (raises demo_env (CreatePresignedPost opts) = false →
       (serve (generate_presigned_url demo_config demo_env
                (post [("fileName", JStr "cat pic.png"); ("fileType", JStr "image/png")]))
              empty_world).1
       = Ok (mkResponse 200 (PresignedUpload (url (presigned demo_env opts))
                                              (fields (presigned demo_env opts)) key))).
Proof.
  apply (C2_issued_key_format demo_config demo_env
           (post [("fileName", JStr "cat pic.png"); ("fileType", JStr "image/png")])
           empty_world "cat pic.png"); reflexivity.
Defined.

(** The example of the specification, evaluated. *)
Example cat_pic_key :
  (serve (generate_presigned_url demo_config demo_env
            (post [("fileName", JStr "cat pic.png"); ("fileType", JStr "image/png")]))
         empty_world).1
  = Ok (mkResponse 200
          (PresignedUpload "https://vault.s3.amazonaws.com/"
             [("key", "images/1700000000000-cat-pic.png")]
             "images/1700000000000-cat-pic.png")).
Proof. reflexivity. Qed.

(** C8. For a request with non-empty string [fileName] and [fileType],
    the only call made is one request for an upload authorization whose
    conditions are exactly a content length between 0 and 10,485,760
    bytes (10 MiB), with no form field and so nothing said of the content
    type, expiring after 300 seconds; the request is the same whatever
    [fileType] a request with that [fileName] carries. *)
Theorem C8_upload_authorization cfg env req w fileName :
  get (body req) "fileName" = Some (JStr fileName) →
  is_empty fileName = false →
  nonempty_string (get (body req) "fileType") = true →
  ∃ opts,
    calls (serve (generate_presigned_url cfg env req) w).2 = [CreatePresignedPost opts]
    ∧ Conditions opts = [CondContentLengthRange 0 10485760]
    ∧ 10485760 = 10 * 1024 * 1024
    ∧ Fields opts = []
    ∧ Expires opts = 300
    ∧ Bucket opts = S3_BUCKET_NAME cfg
    ∧ ∀ req' w',
        get (body req') "fileName" = Some (JStr fileName) →
        nonempty_string (get (body req') "fileType") = true →
        calls (serve (generate_presigned_url cfg env req') w').2 = [CreatePresignedPost opts].
Proof.
  intros Hname Hne Htype.
  assert (∀ r, get (body r) "fileName" = Some (JStr fileName) →
               nonempty_string (get (body r) "fileType") = true →
               isEmpty (validationResult generate_presigned_url_chains (body r)) = true)
    as Hval.
  { intros r Hr Ht. rewrite generate_validation, Hr, Ht. by destruct fileName. }
  eexists. rewrite (generate_run cfg env req w fileName) by auto.
  split; [reflexivity|]. repeat (split; [reflexivity|]).
  intros req' w' Hname' Htype'.
  by rewrite (generate_run cfg env req' w' fileName) by auto.
Qed.

Lemma C8_upload_authorization_witness :
  ∃ opts,
    calls (serve (generate_presigned_url demo_config demo_env
                    (post [("fileName", JStr "cat pic.png"); ("fileType", JStr "image/png")]))
                 empty_world).2 = [CreatePresignedPost opts]
    ∧ Conditions opts = [CondContentLengthRange 0 10485760]
    ∧ 10485760 = 10 * 1024 * 1024
    ∧ Fields opts = []
    ∧ Expires opts = 300
    ∧ Bucket opts = S3_BUCKET_NAME demo_config
    ∧ ∀ req' w',
        get (body req') "fileName" = Some (JStr "cat pic.png") →
        nonempty_string (get (body req') "fileType") = true →
        calls (serve (generate_presigned_url demo_config demo_env req') w').2
        = [CreatePresignedPost opts].
Proof.
  apply (C8_upload_authorization demo_config demo_env
           (post [("fileName", JStr "cat pic.png"); ("fileType", JStr "image/png")])
           empty_world "cat pic.png"); reflexivity.
Defined.

(** ** The table *)

Section Table.

Lemma elem_of_scan_items item w :
  item ∈ scan_items w ↔ table w !! imageId item = Some (attrs item).
Proof.
  unfold scan_items. rewrite list_elem_of_fmap. split.
  - intros ([k a] & -> & H). by apply elem_of_map_to_list in H.
  - intros H. exists (imageId item, attrs item). split; [by destruct item|].
    by apply elem_of_map_to_list.
Qed.

(** A scan returns at most one record for a key. *)
Lemma scan_items_NoDup w : NoDup (imageId <$> scan_items w).
Proof.
  unfold scan_items. rewrite <- list_fmap_compose.
  apply (NoDup_fst_map_to_list (table w)).
Qed.

Lemma without_imageId a b c d e :
  without "imageId" [("imageId", a); ("caption", b); ("tags", c);
                     ("uploadTime", d); ("uploaderId", e)]
  = [("caption", b); ("tags", c); ("uploadTime", d); ("uploaderId", e)].
Proof. reflexivity. Qed.

End Table.

(** ** Metadata recorder *)

Section Recorder.

Variables (cfg : Config) (env : Env).

Lemma js_or_caption v :
  optional_string v = true → js_or v (JStr "") = Some (supplied_or (JStr "") v).
Proof. by destruct v as [[| | |[|]| |]|]. Qed.

Lemma js_or_tags v :
  optional_array v = true → js_or v (JArr []) = Some (supplied_or (JArr []) v).
Proof. by destruct v as [[]|]. Qed.

Lemma save_valid_inv b :
  isEmpty (validationResult save_metadata_chains b) = true →
  (∃ k, get b "key" = Some (JStr k) ∧ is_empty k = false)
  ∧ optional_string (get b "caption") = true
  ∧ optional_array (get b "tags") = true.
Proof.
  rewrite save_validation. intros [[Hk Hc]%andb_prop Ht]%andb_prop.
  by apply nonempty_string_inv in Hk.
Qed.

(** What the handler does on a request that passes validation: when
    [marshall] takes the item, one put of the five-field record, which
    replaces what the table holds under the key; when it does not, no
    call and a 500. *)
Lemma save_run req w k :
  isEmpty (validationResult save_metadata_chains (body req)) = true →
  get (body req) "key" = Some (JStr k) →
  let call := PutItem (DYNAMODB_TABLE_NAME cfg) (("imageId", JStr k) :: written_attrs env req) in
  serve (save_metadata cfg env req) w =
  if storable env req then
    if raises env call
    then (Ok (mkResponse 500 (ErrorMessage "Failed to save metadata")), mkSt w [call])
    else (Ok (mkResponse 200 (Success "Metadata saved")),
          mkSt (mkWorld (objects w) (<[k := written_attrs env req]> (table w))) [call])
  else (Ok (mkResponse 500 (ErrorMessage "Failed to save metadata")), mkSt w []).
Proof.
  intros Hval Hkey.
  destruct (save_valid_inv _ Hval) as ((k' & Hk' & Hne) & Hcap & Htags).
  rewrite Hkey in Hk'. injection Hk' as <-.
  run_handler save_metadata. rewrite Hval.
  unfold save_item. rewrite Hkey, (js_or_caption _ Hcap), (js_or_tags _ Htags).
  unfold_js. unfold storable, written_attrs.
  cbn [negb marshall Res_bind forallb snd safe_json andb].
  destruct (safe_json (supplied_or (JStr "") _)); cbn [andb Res_bind]; [|done].
  destruct (safe_json (supplied_or (JArr []) _)); cbn [andb Res_bind]; [|done].
  destruct (safe_integer (now env)); cbn [andb Res_bind world calls app]; [|done].
  destruct (raises env _); [done|].
  unfold put_item. cbn [get String.eqb Ascii.eqb Bool.eqb]. rewrite without_imageId.
  by destruct k.
Qed.

(** A request that fails validation is answered 400 and nothing is
    called. *)
Lemma save_rejected req w :
  isEmpty (validationResult save_metadata_chains (body req)) = false →
  serve (save_metadata cfg env req) w =
  (Ok (mkResponse 400 (ValidationErrors (validationResult save_metadata_chains (body req)))),
   mkSt w []).
Proof.
  intros Hval. run_handler save_metadata. by rewrite Hval.
Qed.

End Recorder.

(** A tag beyond [Number.MAX_SAFE_INTEGER] passes validation and is
    refused by [marshall]: the answer is 500, nothing is put and the
    table is as it was. *)
Example save_refuses_unsafe_number :
  serve (save_metadata demo_config demo_env
           (post [("key", JStr "images/1-a.png"); ("tags", JArr [JNum 9007199254740994])]))
        beach_world
  = (Ok (mkResponse 500 (ErrorMessage "Failed to save metadata")), mkSt beach_world []).
Proof. vm_compute. reflexivity. Qed.

(** C6. A request to the recorder that passes validation, with key [k],
    whose item [marshall] takes (its numbers are safe integers) and
    whose put the table accepts, leaves under [k] the record with
    the supplied caption (the empty string when missing), the supplied
    tags (the empty sequence when missing), the server time of the
    write as [uploadTime] and the caller's address as [uploaderId]; a
    scan returns it with [imageId = k]. *)
Theorem C6_stored_record cfg env req w k :
  isEmpty (validationResult save_metadata_chains (body req)) = true →
  get (body req) "key" = Some (JStr k) →
  storable env req = true →
  (∀ item, raises env (PutItem (DYNAMODB_TABLE_NAME cfg) item) = false) →
  let result := serve (save_metadata cfg env req) w in
  ∃ caption tags,
    caption = match get (body req) "caption" with Some c => c | None => JStr "" end
    ∧ tags = match get (body req) "tags" with Some t => t | None => JArr [] end
    ∧ result.1 = Ok (mkResponse 200 (Success "Metadata saved"))
    ∧ calls result.2 =
        [PutItem (DYNAMODB_TABLE_NAME cfg)
           [("imageId", JStr k); ("caption", caption); ("tags", tags);
            ("uploadTime", JNum (now env)); ("uploaderId", JStr (ip req))]]
    ∧ table (world result.2) !! k =
        Some [("caption", caption); ("tags", tags);
              ("uploadTime", JNum (now env)); ("uploaderId", JStr (ip req))]
    ∧ mkItem k [("caption", caption); ("tags", tags);
                ("uploadTime", JNum (now env)); ("uploaderId", JStr (ip req))]
      ∈ scan_items (world result.2).
Proof.
  intros Hval Hkey Hstore Hput result. subst result.
  rewrite (save_run cfg env req w k Hval Hkey). cbv zeta. rewrite Hstore, Hput.
  eexists _, _. split; [reflexivity|]. split; [reflexivity|].
  split; [reflexivity|]. split; [reflexivity|].
  assert (∀ v, <[k:=v]> (table w) !! k = Some v) as Hlook
    by (intros v; apply lookup_insert_eq).
  split; [apply Hlook|]. apply elem_of_scan_items, Hlook.
Qed.

Lemma C6_stored_record_witness :
  let req := post [("key", JStr "images/1-a.png"); ("caption", JStr "Dunes")] in
  let result := serve (save_metadata demo_config demo_env req) empty_world in
  ∃ caption tags,
    caption = match get (body req) "caption" with Some c => c | None => JStr "" end
    ∧ tags = match get (body req) "tags" with Some t => t | None => JArr [] end
    ∧ result.1 = Ok (mkResponse 200 (Success "Metadata saved"))
    ∧ calls result.2 =
        [PutItem (DYNAMODB_TABLE_NAME demo_config)
           [("imageId", JStr "images/1-a.png"); ("caption", caption); ("tags", tags);
            ("uploadTime", JNum (now demo_env)); ("uploaderId", JStr (ip req))]]
    ∧ table (world result.2) !! "images/1-a.png" =
        Some [("caption", caption); ("tags", tags);
              ("uploadTime", JNum (now demo_env)); ("uploaderId", JStr (ip req))]
    ∧ mkItem "images/1-a.png" [("caption", caption); ("tags", tags);
                ("uploadTime", JNum (now demo_env)); ("uploaderId", JStr (ip req))]
      ∈ scan_items (world result.2).
Proof.
  intros req.
  apply (C6_stored_record demo_config demo_env req empty_world "images/1-a.png");
    [reflexivity | reflexivity | reflexivity | intros item; reflexivity].
Defined.

(** C3. Two requests to the recorder with the same key [k], each valid,
    each with an item that [marshall] takes and each accepted by the
    table: afterwards the table holds under [k]
    the record of the second request (its caption, tags, time and
    uploader), a scan returns that record and no other for [k], and the
    table is what the second request alone would have left: nothing of
    the first write is merged in. *)
Theorem C3_second_write_wins cfg env1 env2 req1 req2 w k :
  isEmpty (validationResult save_metadata_chains (body req1)) = true →
  isEmpty (validationResult save_metadata_chains (body req2)) = true →
  get (body req1) "key" = Some (JStr k) →
  get (body req2) "key" = Some (JStr k) →
  storable env1 req1 = true →
  storable env2 req2 = true →
  (∀ item, raises env1 (PutItem (DYNAMODB_TABLE_NAME cfg) item) = false) →
  (∀ item, raises env2 (PutItem (DYNAMODB_TABLE_NAME cfg) item) = false) →
  let w1 := world_after (serve (save_metadata cfg env1 req1) w) in
  let w2 := world_after (serve (save_metadata cfg env2 req2) w1) in
  let second :=
    [("caption", supplied_or (JStr "") (get (body req2) "caption"));
     ("tags", supplied_or (JArr []) (get (body req2) "tags"));
     ("uploadTime", JNum (now env2));
     ("uploaderId", JStr (ip req2))] in
  table w2 !! k = Some second
  ∧ (∀ item, item ∈ scan_items w2 → imageId item = k → attrs item = second)
  ∧ mkItem k second ∈ scan_items w2
  ∧ NoDup (imageId <$> scan_items w2)
  ∧ w2 = world_after (serve (save_metadata cfg env2 req2) w).
Proof.
  intros Hval1 Hval2 Hkey1 Hkey2 Hst1 Hst2 Hput1 Hput2 w1 w2 second.
  assert (w2 = mkWorld (objects w) (<[k := second]> (table w))) as Hw2.
  { subst w2 w1. unfold world_after.
    rewrite (save_run cfg env1 req1 w k Hval1 Hkey1). cbv zeta. rewrite Hst1, Hput1.
    rewrite (save_run cfg env2 req2 _ k Hval2 Hkey2). cbv zeta. rewrite Hst2, Hput2.
    cbn [snd world objects table]. f_equal. apply insert_insert_eq. }
  assert (table w2 !! k = Some second) as Hlook.
  { rewrite Hw2. apply lookup_insert_eq. }
  split; [done|]. split.
  { intros item Hin <-. apply elem_of_scan_items in Hin. congruence. }
  split; [by apply elem_of_scan_items|].
  split; [apply scan_items_NoDup|].
  rewrite Hw2. unfold world_after.
  rewrite (save_run cfg env2 req2 w k Hval2 Hkey2). cbv zeta. by rewrite Hst2, Hput2.
Qed.

Lemma C3_second_write_wins_witness :
  let req1 := post [("key", JStr "images/1-a.png"); ("caption", JStr "Dunes");
                    ("tags", JArr [JStr "sand"])] in
  let req2 := post [("key", JStr "images/1-a.png"); ("caption", JStr "Sunset")] in
  let w1 := world_after (serve (save_metadata demo_config demo_env req1) beach_world) in
  let w2 := world_after (serve (save_metadata demo_config later_env req2) w1) in
  let second :=
    [("caption", supplied_or (JStr "") (get (body req2) "caption"));
     ("tags", supplied_or (JArr []) (get (body req2) "tags"));
     ("uploadTime", JNum (now later_env));
     ("uploaderId", JStr (ip req2))] in
  table w2 !! "images/1-a.png" = Some second
  ∧ (∀ item, item ∈ scan_items w2 → imageId item = "images/1-a.png" → attrs item = second)
  ∧ mkItem "images/1-a.png" second ∈ scan_items w2
  ∧ NoDup (imageId <$> scan_items w2)
  ∧ w2 = world_after (serve (save_metadata demo_config later_env req2) beach_world).
Proof.
  intros req1 req2.
  apply (C3_second_write_wins demo_config demo_env later_env req1 req2 beach_world
           "images/1-a.png");
    [reflexivity | reflexivity | reflexivity | reflexivity | reflexivity | reflexivity
    | intros item; reflexivity | intros item; reflexivity].
Defined.

(** ** Object remover *)

Section Remover.

Variables (cfg : Config) (env : Env).

(** What the handler does on a request that passes validation. *)
Lemma delete_run req w k :
  get (body req) "key" = Some (JStr k) →
  is_empty k = false →
  let s3 := DeleteObject (S3_BUCKET_NAME cfg) k in
  let db := DeleteItem (DYNAMODB_TABLE_NAME cfg) k in
  let failed := Ok (mkResponse 500 (ErrorMessage "Failed to delete image")) in
  serve (delete_image cfg env req) w =
  if raises env s3 then (failed, mkSt w [s3])
  else if raises env db then (failed, mkSt (delete_object k w) [s3; db])
  else (Ok (mkResponse 200 (Success "Image deleted")),
        mkSt (delete_item k (delete_object k w)) [s3; db]).
Proof.
  intros Hkey Hne. run_handler delete_image.
  rewrite delete_validation, Hkey. destruct k as [|c k]; [done|].
  unfold_js.
  cbn [negb nonempty_string key_string world calls app].
  destruct (raises env (DeleteObject _ _)); [done|].
  by destruct (raises env (DeleteItem _ _)).
Qed.

Lemma not_elem_of_delete_object k w : k ∉ objects (delete_object k w).
Proof.
  unfold delete_object. cbn [objects]. rewrite elem_of_difference, elem_of_singleton.
  by intros [_ Hk].
Qed.

Lemma delete_rejected req w :
  isEmpty (validationResult delete_image_chains (body req)) = false →
  serve (delete_image cfg env req) w =
  (Ok (mkResponse 400 (ValidationErrors (validationResult delete_image_chains (body req)))),
   mkSt w []).
Proof.
  intros Hval. run_handler delete_image. by rewrite Hval.
Qed.

Lemma generate_rejected req w :
  isEmpty (validationResult generate_presigned_url_chains (body req)) = false →
  serve (generate_presigned_url cfg env req) w =
  (Ok (mkResponse 400
         (ValidationErrors (validationResult generate_presigned_url_chains (body req)))),
   mkSt w []).
Proof.
  intros Hval. run_handler generate_presigned_url. by rewrite Hval.
Qed.

End Remover.

(** C5. For a request to the remover with key [k]: the first call is the
    delete of the object [k], and the delete of the record [k] comes
    second, only when the first did not raise.  When either raises the
    answer is 500.  When the first succeeds and the second raises, no
    further call is made: the object is gone and the table is as it
    was, so a record for [k] is still there. *)
Theorem C5_delete_object_then_record cfg env req w k :
  get (body req) "key" = Some (JStr k) →
  is_empty k = false →
  let s3 := DeleteObject (S3_BUCKET_NAME cfg) k in
  let db := DeleteItem (DYNAMODB_TABLE_NAME cfg) k in
  let result := serve (delete_image cfg env req) w in
  let failed := Ok (mkResponse 500 (ErrorMessage "Failed to delete image")) in
  (calls result.2 = [s3] ∨ calls result.2 = [s3; db])
  ∧ (raises env s3 = true ∨ raises env db = true → result.1 = failed)
  ∧ (raises env s3 = true → result.2 = mkSt w [s3])
  ∧ (raises env s3 = false → raises env db = true →
       calls result.2 = [s3; db]
       ∧ (k ∉ objects (world result.2))
       ∧ table (world result.2) = table w)
  ∧ (raises env s3 = false → raises env db = false →
       result.1 = Ok (mkResponse 200 (Success "Image deleted"))
       ∧ calls result.2 = [s3; db]
       ∧ (k ∉ objects (world result.2))
       ∧ table (world result.2) !! k = None).
Proof.
  intros Hkey Hne s3 db result failed. subst result.
  rewrite (delete_run cfg env req w k Hkey Hne). cbv zeta. fold s3 db.
  destruct (raises env s3) eqn:Hs3; [|destruct (raises env db) eqn:Hdb]; cbn [fst snd calls world].
  - split; [by left|]. split; [done|]. split; [done|]. split; [done|]. done.
  - split; [by right|]. split; [done|]. split; [done|]. split; [|done].
    intros _ _. split; [done|]. split; [|done]. apply not_elem_of_delete_object.
  - split; [by right|]. split; [by intros [?|?]|]. split; [done|]. split; [done|].
    intros _ _. split; [done|]. split; [done|]. split.
    + apply not_elem_of_delete_object.
    + simpl. apply lookup_delete_eq.
Qed.

Lemma C5_delete_object_then_record_witness :
  let cfg := demo_config in
  let env := table_down_env in
  let req := post [("key", JStr "images/1-a.png")] in
  let w := mkWorld {["images/1-a.png"]} (table beach_world) in
  let k := "images/1-a.png" in
  let s3 := DeleteObject (S3_BUCKET_NAME cfg) k in
  let db := DeleteItem (DYNAMODB_TABLE_NAME cfg) k in
  let result := serve (delete_image cfg env req) w in
  let failed := Ok (mkResponse 500 (ErrorMessage "Failed to delete image")) in
  (calls result.2 = [s3] ∨ calls result.2 = [s3; db])
  ∧ (raises env s3 = true ∨ raises env db = true → result.1 = failed)
  ∧ (raises env s3 = true → result.2 = mkSt w [s3])
  ∧ (raises env s3 = false → raises env db = true →
       calls result.2 = [s3; db]
       ∧ (k ∉ objects (world result.2))
       ∧ table (world result.2) = table w)
  ∧ (raises env s3 = false → raises env db = false →
       result.1 = Ok (mkResponse 200 (Success "Image deleted"))
       ∧ calls result.2 = [s3; db]
       ∧ (k ∉ objects (world result.2))
       ∧ table (world result.2) !! k = None).
Proof.
  intros cfg env req w k.
  apply (C5_delete_object_then_record cfg env req w k); reflexivity.
Defined.

(** C4. On each validated route (generate-presigned-url with [fileName]
    and [fileType], save-metadata with [key], delete-image with [key]),
    a request in which a required field is missing, is the empty string
    or is not a string is answered 400 with an array of errors that is
    not empty; no call is made and the bucket and the table are as they
    were. *)
Theorem C4_invalid_request_rejected cfg env r f req w :
  (r, f) ∈ [(PostGeneratePresignedUrl, "fileName");
            (PostGeneratePresignedUrl, "fileType");
            (PostSaveMetadata, "key");
            (PostDeleteImage, "key")] →
  nonempty_string (get (body req) f) = false →
  ∃ errors,
    serve (handle cfg env r req) w
    = (Ok (mkResponse 400 (ValidationErrors errors)), mkSt w [])
    ∧ errors ≠ [].
Proof.
  intros Hrf Hv.
  assert (f ∈ required_fields r) as Hf.
  { rewrite required_fields_eq.
    repeat (apply elem_of_cons in Hrf as [[= -> ->]|Hrf]; [set_solver|]).
    by apply elem_of_nil in Hrf. }
  pose proof (required_field_rejected r f (body req) Hf Hv) as Hval.
  exists (validationResult (chains_of r) (body req)). split.
  - rewrite required_fields_eq in Hf. destruct r; try (by apply elem_of_nil in Hf);
      cbn [handle chains_of] in *.
    + by apply generate_rejected.
    + by apply save_rejected.
    + by apply delete_rejected.
  - intros Hnil. by rewrite Hnil in Hval.
Qed.

Lemma C4_invalid_request_rejected_witness :
  ∃ errors,
    serve (handle demo_config demo_env PostDeleteImage (post [("key", JNum 7)])) beach_world
    = (Ok (mkResponse 400 (ValidationErrors errors)), mkSt beach_world [])
    ∧ errors ≠ [].
Proof.
  apply (C4_invalid_request_rejected demo_config demo_env PostDeleteImage "key"
           (post [("key", JNum 7)]) beach_world); [set_solver | reflexivity].
Defined.

(** ** Catalog search *)

Section Search.

Variables (cfg : Config) (env : Env).

Local Abbreviation scan := (Scan (DYNAMODB_TABLE_NAME cfg)).
Local Abbreviation failed := (Ok (mkResponse 500 (ErrorMessage "Search failed"))).
Local Abbreviation found l := (Ok (mkResponse 200 (Images (image_with_url cfg <$> l)))).
Local Abbreviation answer l :=
  (if forallb serialisable (image_with_url cfg <$> l) then found l else failed).

(** The only call of a search is the scan, and nothing is written. *)
Lemma search_state req w : (serve (search cfg env req) w).2 = mkSt w [scan].
Proof.
  run_handler search. unfold_js. cbn [world calls app]. destruct (raises env _); [done|].
  destruct (query_q req) as [|s|]; [by destruct (forallb _ _)| |done].
  destruct (is_empty s || is_empty (trim s)); [by destruct (forallb _ _)|].
  destruct (filter_array _ _); [|done]. by destruct (forallb _ _).
Qed.

Lemma search_scan_raises req w :
  raises env scan = true → (serve (search cfg env req) w).1 = failed.
Proof.
  intros H. run_handler search. unfold_js. cbn [world calls app]. by rewrite H.
Qed.

(** An absent or blank query: the page of the scan, shaped, when it can
    be serialised. *)
Lemma search_blank req w :
  raises env scan = false → blank (query_q req) = true →
  (serve (search cfg env req) w).1 = answer (scan_page env w).
Proof.
  intros H Hq. run_handler search. unfold_js. cbn [world calls app]. rewrite H.
  destruct (query_q req) as [|s|]; [by destruct (forallb _ _)| |done].
  simpl in Hq. rewrite blank_test, Hq. by destruct (forallb _ _).
Qed.

Lemma search_term req w s :
  raises env scan = false → query_q req = QString s → all_chars is_white s = false →
  (serve (search cfg env req) w).1 =
  match filter_array (item_matches (trim (toLowerCase s))) (scan_page env w) with
  | Ok l => answer l
  | Raise => failed
  end.
Proof.
  intros H Hs Hq. run_handler search. unfold_js. cbn [world calls app].
  rewrite H, Hs, blank_test, Hq.
  destruct (filter_array _ _); [|done]. by destruct (forallb _ _).
Qed.

Lemma search_other req w :
  query_q req = QOther → (serve (search cfg env req) w).1 = failed.
Proof.
  intros Hq. run_handler search. unfold_js. cbn [world calls app].
  rewrite Hq. by destruct (raises env _).
Qed.

(** The page of a scan is a prefix of the table, and the whole table
    when the table fits in it. *)
Lemma scan_page_sublist w : scan_page env w `sublist_of` scan_items w.
Proof. apply sublist_take. Qed.

Lemma scan_page_all w : one_page env w → scan_page env w = scan_items w.
Proof. intros H. by apply take_ge. Qed.

(** On a table without numbers beyond the safe range every shaped record
    can be serialised. *)
Lemma safe_get a name v :
  forallb (λ kv, safe_json (snd kv)) a = true → get a name = Some v → safe_json v = true.
Proof.
  induction a as [|[k x] a IH]; [done|]. cbn [forallb get snd].
  intros [Hx Ha]%andb_prop. destruct (String.eqb k name); [|by apply IH].
  by intros [= <-].
Qed.

Lemma safe_item_serialisable item :
  safe_item item = true → serialisable (image_with_url cfg item) = true.
Proof.
  intros Hsafe. unfold serialisable, image_with_url. cbn [forallb snd safe_json].
  assert (∀ name, match get (attrs item) name with
                  | Some v => safe_json v
                  | None => true
                  end = true) as Hget.
  { intros name. destruct (get (attrs item) name) eqn:Hv; [|done].
    by eapply safe_get. }
  by rewrite !Hget.
Qed.

Lemma safe_table_serialisable w l :
  safe_table w = true → l `sublist_of` scan_items w →
  forallb serialisable (image_with_url cfg <$> l) = true.
Proof.
  unfold safe_table. rewrite !forallb_forall. intros Hsafe Hsub r Hr.
  apply list_elem_of_In, list_elem_of_fmap in Hr as (item & -> & Hitem).
  apply safe_item_serialisable, Hsafe, list_elem_of_In.
  by eapply elem_of_sublist.
Qed.

End Search.

Section Filter.

Context {A : Type}.

(** [filter] keeps the order of the array and takes each element at
    most once. *)
Lemma filter_array_sublist (f : A → Res bool) l r :
  filter_array f l = Ok r → r `sublist_of` l.
Proof.
  revert r. induction l as [|x l IH]; intros r; simpl.
  - intros [= <-]. constructor.
  - destruct (f x) as [b|]; [|done]. simpl.
    destruct (filter_array f l) as [r'|]; [|done]. simpl.
    intros [= <-]. destruct b.
    + by apply sublist_skip, IH.
    + by apply sublist_cons, IH.
Qed.

Lemma filter_array_total (f : A → Res bool) (g : A → bool) l :
  Forall (λ x, f x = Ok (g x)) l →
  filter_array f l = Ok (filter g l).
Proof.
  induction 1 as [|x l Hx _ IH]; [done|].
  simpl. rewrite Hx, IH. simpl. rewrite filter_cons.
  by destruct (g x).
Qed.

Lemma some_total (f : A → Res bool) (g : A → bool) l :
  Forall (λ x, f x = Ok (g x)) l → some f l = Ok (existsb g l).
Proof.
  induction 1 as [|x l Hx _ IH]; [done|].
  simpl. rewrite Hx. simpl. by destruct (g x).
Qed.

End Filter.

Section Matching.

Variable term : string.
Hypothesis term_not_empty : is_empty term = false.

Lemma tags_match l ts :
  strings_of l = Some ts →
  some (tag_matches term) l = Ok (existsb (λ t, includes (toLowerCase t) term) ts).
Proof.
  unfold strings_of. rewrite mapM_Some.
  induction 1 as [|v t l ts Hv _ IH]; [done|].
  destruct v; try done. injection Hv as ->.
  cbn [some existsb]. unfold tag_matches at 1.
  destruct t as [|c t].
  - cbn [truthy Res_bind toLowerCase]. by rewrite includes_empty_haystack.
  - cbn [truthy Res_bind]. rewrite IH. by destruct (includes _ _).
Qed.

(** On a record of the data model the callback of the filter does not
    raise and decides "the term occurs in the caption or in a tag". *)
Lemma item_matches_well_typed item :
  well_typed item → item_matches term item = Ok (term_matchesb term item).
Proof.
  intros [[c Hc] [ts Hts]]. unfold item_matches, term_matchesb.
  rewrite Hc, Hts. unfold caption_of, tags_of in Hc, Hts.
  destruct (get (attrs item) "caption") as [[| | |c'| |]|]; try done.
  injection Hc as ->.
  destruct (get (attrs item) "tags") as [[| | | |l|]|]; try done.
  cbn [truthy]. rewrite (tags_match l ts Hts).
  destruct c as [|a c].
  - cbn [truthy Res_bind toLowerCase]. by rewrite includes_empty_haystack.
  - done.
Qed.

Lemma term_matchesb_spec item :
  term_matchesb term item = true ↔ term_matches term item.
Proof.
  unfold term_matchesb, term_matches. rewrite orb_true_iff. split.
  - intros [H|H].
    + left. destruct (caption_of item) as [c|]; [|done].
      exists c. split; [done|]. by apply includes_spec.
    + right. destruct (tags_of item) as [ts|]; [|done].
      apply existsb_exists in H as (t & Hin & H).
      exists ts, t. split; [done|]. split; [by apply list_elem_of_In|].
      by apply includes_spec.
  - intros [(c & -> & H)|(ts & t & -> & Hin & H)].
    + left. by apply includes_spec.
    + right. apply existsb_exists. exists t.
      split; [by apply list_elem_of_In|]. by apply includes_spec.
Qed.

End Matching.

Section SearchResults.

Variables (cfg : Config) (env : Env).

(** A list of images in a response of the search is the shaping of a
    subsequence of the page of the scan, and the answer is then 200. *)
Lemma search_images req w resp images :
  (serve (search cfg env req) w).1 = Ok resp →
  payload resp = Images images →
  ∃ kept,
    kept `sublist_of` scan_items w
    ∧ images = image_with_url cfg <$> kept
    ∧ status resp = 200
    ∧ raises env (Scan (DYNAMODB_TABLE_NAME cfg)) = false
    ∧ kept `sublist_of` scan_page env w.
Proof.
  intros Hrun Hpay.
  assert (∀ kept, kept `sublist_of` scan_page env w → kept `sublist_of` scan_items w)
    as Hpage.
  { intros kept Hk. etrans; [exact Hk|apply scan_page_sublist]. }
  destruct (raises env (Scan (DYNAMODB_TABLE_NAME cfg))) eqn:Hscan.
  { rewrite search_scan_raises in Hrun by done. injection Hrun as <-. done. }
  destruct (blank (query_q req)) eqn:Hblank.
  { rewrite search_blank in Hrun by done.
    destruct (forallb _ _); injection Hrun as <-; [|done].
    injection Hpay as <-. exists (scan_page env w). auto. }
  destruct (query_q req) as [|s|] eqn:Hq; [done| |].
  - rewrite (search_term cfg env req w s) in Hrun by done.
    destruct (filter_array _ _) as [kept|] eqn:Hf.
    + destruct (forallb _ _); injection Hrun as <-; [|done].
      injection Hpay as <-. exists kept.
      apply filter_array_sublist in Hf. auto.
    + injection Hrun as <-. done.
  - rewrite search_other in Hrun by done. injection Hrun as <-. done.
Qed.

(** With an absent or blank query, on a table without numbers beyond
    the safe range, the page of the scan is returned, shaped, whatever
    else the records hold. *)
Lemma search_blank_page req w :
  raises env (Scan (DYNAMODB_TABLE_NAME cfg)) = false →
  blank (query_q req) = true →
  safe_table w = true →
  (serve (search cfg env req) w).1
  = Ok (mkResponse 200 (Images (image_with_url cfg <$> scan_page env w))).
Proof.
  intros Hscan Hq Hsafe. rewrite search_blank by done.
  by rewrite (safe_table_serialisable cfg w _ Hsafe (scan_page_sublist env w)).
Qed.

(** With an absent or blank query every record of the table is returned,
    shaped, when the table fits in the page of the scan and holds no
    number beyond the safe range, whatever else the records hold. *)
Lemma search_blank_returns_all req w :
  raises env (Scan (DYNAMODB_TABLE_NAME cfg)) = false →
  blank (query_q req) = true →
  safe_table w = true →
  one_page env w →
  (serve (search cfg env req) w).1
  = Ok (mkResponse 200 (Images (image_with_url cfg <$> scan_items w)))
  ∧ ∀ k a, table w !! k = Some a → image_with_url cfg (mkItem k a)
                                    ∈ image_with_url cfg <$> scan_items w.
Proof.
  intros Hscan Hq Hsafe Hpage. split.
  - rewrite search_blank_page by done. by rewrite scan_page_all.
  - intros k a Hk. apply list_elem_of_fmap_2. by apply elem_of_scan_items.
Qed.

(** On a table whose records are records of the data model, without
    numbers beyond the safe range, a query that is not blank returns
    exactly the records of the scan's page in which the trimmed,
    lower-cased query occurs in the lower-cased caption or in some
    lower-cased tag; the page is the whole table when the table fits in
    it. *)
Lemma search_well_typed_exact req w s :
  raises env (Scan (DYNAMODB_TABLE_NAME cfg)) = false →
  query_q req = QString s →
  all_chars is_white s = false →
  Forall well_typed (scan_items w) →
  safe_table w = true →
  let term := trim (toLowerCase s) in
  ∃ kept,
    (serve (search cfg env req) w).1
    = Ok (mkResponse 200 (Images (image_with_url cfg <$> kept)))
    ∧ kept `sublist_of` scan_page env w
    ∧ (∀ item, item ∈ kept ↔ item ∈ scan_page env w ∧ term_matches term item)
    ∧ (one_page env w → scan_page env w = scan_items w).
Proof.
  intros Hscan Hq Hs Htyped Hsafe term.
  assert (is_empty term = false) as Hterm.
  { subst term. by rewrite search_term_empty. }
  exists (filter (term_matchesb term) (scan_page env w)).
  rewrite (search_term cfg env req w s) by done. fold term.
  rewrite (filter_array_total _ (term_matchesb term)).
  - rewrite (safe_table_serialisable cfg w _ Hsafe).
    + split; [done|]. split; [apply sublist_filter|]. split; [|apply scan_page_all].
      intros item. rewrite list_elem_of_filter, <- term_matchesb_spec by done.
      rewrite Is_true_true. tauto.
    + etrans; [apply sublist_filter|apply scan_page_sublist].
  - eapply Forall_impl; [|intros item Hitem; by apply item_matches_well_typed].
    unfold scan_page. by apply Forall_take.
Qed.

End SearchResults.

(** C1 (the code departs from it).  The recorder accepts tags that are
    not strings, and on the table that results a search with a query
    that is not blank raises in its filter and is answered 500, where
    the specification has it return the matching records (here none);
    the blank query still returns the record. *)
Theorem C1_search_raises_on_numeric_tag :
  let save := post [("key", JStr "images/1-a.png"); ("tags", JArr [JNum 5])] in
  let stored := [("caption", JStr ""); ("tags", JArr [JNum 5]);
                 ("uploadTime", JNum 1700000000000); ("uploaderId", JStr "203.0.113.7")] in
  serve (save_metadata demo_config demo_env save) empty_world
  = (Ok (mkResponse 200 (Success "Metadata saved")),
     mkSt numeric_tag_world [PutItem "images" (("imageId", JStr "images/1-a.png") :: stored)])
  ∧ scan_items numeric_tag_world = [mkItem "images/1-a.png" stored]
  ∧ serve (search demo_config demo_env (query "a")) numeric_tag_world
    = (Ok (mkResponse 500 (ErrorMessage "Search failed")),
       mkSt numeric_tag_world [Scan "images"])
  ∧ (∀ item, item ∈ scan_items numeric_tag_world → ¬ term_matches "a" item)
  ∧ (serve (search demo_config demo_env (query " ")) numeric_tag_world).1
    = Ok (mkResponse 200
            (Images [image_with_url demo_config (mkItem "images/1-a.png" stored)])).
Proof.
  intros save stored.
  assert (scan_items numeric_tag_world = [mkItem "images/1-a.png" stored]) as Hscan
    by (vm_compute; reflexivity).
  split; [vm_compute; reflexivity|]. split; [exact Hscan|].
  split; [vm_compute; reflexivity|]. split; [|vm_compute; reflexivity].
  intros item Hitem. rewrite Hscan in Hitem.
  apply list_elem_of_singleton in Hitem as ->.
  rewrite <- term_matchesb_spec. by vm_compute.
Qed.

(** The example of the specification: [?q=BEACH] finds the record tagged
    ["Beach"] and the record captioned ["Sunset at the Beach"], in scan
    order, and not the third record. *)
Example search_beach :
  (serve (search demo_config demo_env (query "BEACH")) beach_world).1
  = Ok (mkResponse 200 (Images (image_with_url demo_config <$>
      [mkItem "images/1-a.png"
         [("caption", JStr "Dunes"); ("tags", JArr [JStr "Beach"; JStr "sand"]);
          ("uploadTime", JNum 1700000000000); ("uploaderId", JStr "203.0.113.7")];
       mkItem "images/2-b.png"
         [("caption", JStr "Sunset at the Beach"); ("tags", JArr [JStr "sea"]);
          ("uploadTime", JNum 1700000000000); ("uploaderId", JStr "203.0.113.7")]])))
  ∧ length (scan_items beach_world) = 3%nat.
Proof. vm_compute. split; reflexivity. Qed.

(** C7. Every object in a list of images that the search returns, for
    any query, is the literal with exactly the properties [key],
    [caption], [tags], [uploadTime] and [presignedGetUrl] of one scanned
    record, the URL being
    [https://<bucket>.s3.<region>.amazonaws.com/<imageId>]; the search
    asks for no signature (its only call is the scan), its outcome does
    not depend on the access key pair, and the object does not depend on
    the record's [uploaderId]. *)
Theorem C7_result_object cfg env req w resp images :
  (serve (search cfg env req) w).1 = Ok resp →
  payload resp = Images images →
  (∀ r, r ∈ images →
     ∃ item, item ∈ scan_items w
       ∧ r = [("key", Some (JStr (imageId item)));
              ("caption", get (attrs item) "caption");
              ("tags", get (attrs item) "tags");
              ("uploadTime", get (attrs item) "uploadTime");
              ("presignedGetUrl",
               Some (JStr ("https://" +:+ S3_BUCKET_NAME cfg +:+ ".s3." +:+ AWS_REGION cfg
                           +:+ ".amazonaws.com/" +:+ imageId item)))]
       ∧ r.*1 = result_fields
       ∧ ∀ item', imageId item' = imageId item →
           (∀ name, name ≠ "uploaderId" → get (attrs item') name = get (attrs item) name) →
           image_with_url cfg item' = r)
  ∧ calls (serve (search cfg env req) w).2 = [Scan (DYNAMODB_TABLE_NAME cfg)]
  ∧ ∀ id secret,
      serve (search (with_credentials id secret cfg) env req) w
      = serve (search cfg env req) w.
Proof.
  intros Hrun Hpay.
  destruct (search_images cfg env req w resp images Hrun Hpay)
    as (kept & Hsub & -> & _ & _).
  split; [|split; [by rewrite search_state|done]].
  intros r (item & -> & Hin)%list_elem_of_fmap.
  exists item. split; [by eapply elem_of_sublist|].
  split; [done|]. split; [done|].
  intros item' Hid Hget. unfold image_with_url.
  by rewrite Hid, !Hget.
Qed.

Lemma C7_result_object_witness :
  (∀ r, r ∈ sunset_images →
     ∃ item, item ∈ scan_items beach_world
       ∧ r = [("key", Some (JStr (imageId item)));
              ("caption", get (attrs item) "caption");
              ("tags", get (attrs item) "tags");
              ("uploadTime", get (attrs item) "uploadTime");
              ("presignedGetUrl",
               Some (JStr ("https://" +:+ S3_BUCKET_NAME demo_config +:+ ".s3."
                           +:+ AWS_REGION demo_config
                           +:+ ".amazonaws.com/" +:+ imageId item)))]
       ∧ r.*1 = result_fields
       ∧ ∀ item', imageId item' = imageId item →
           (∀ name, name ≠ "uploaderId" → get (attrs item') name = get (attrs item) name) →
           image_with_url demo_config item' = r)
  ∧ calls (serve (search demo_config demo_env (query "sunset")) beach_world).2
    = [Scan (DYNAMODB_TABLE_NAME demo_config)]
  ∧ ∀ id secret,
      serve (search (with_credentials id secret demo_config) demo_env (query "sunset")) beach_world
      = serve (search demo_config demo_env (query "sunset")) beach_world.
Proof.
  apply (C7_result_object demo_config demo_env (query "sunset") beach_world
           (mkResponse 200 (Images sunset_images)) sunset_images);
    [vm_compute; reflexivity | reflexivity].
Defined.

(** C9. On a table without numbers beyond the safe range: when a search
    with a query returns a list, the search with an empty query on the
    same table returns a list too, the shaping of the whole page of the
    scan (the whole table, when the table fits in one page), and the
    first list is a subsequence of the second: the shaping of a
    subsequence of the page, in scan order, each record at most once,
    shaped by the same function. *)
Theorem C9_filtered_subsequence_of_all cfg env req req0 w resp images :
  (serve (search cfg env req) w).1 = Ok resp →
  payload resp = Images images →
  blank (query_q req0) = true →
  safe_table w = true →
  ∃ kept,
    (serve (search cfg env req0) w).1
    = Ok (mkResponse 200 (Images (image_with_url cfg <$> scan_page env w)))
    ∧ kept `sublist_of` scan_page env w
    ∧ images = image_with_url cfg <$> kept
    ∧ images `sublist_of` image_with_url cfg <$> scan_page env w
    ∧ NoDup (imageId <$> kept)
    ∧ (one_page env w → scan_page env w = scan_items w).
Proof.
  intros Hrun Hpay Hblank Hsafe.
  destruct (search_images cfg env req w resp images Hrun Hpay)
    as (kept & Hsub & -> & _ & Hscan & Hpage).
  exists kept. split; [by apply search_blank_page|]. split; [done|]. split; [done|].
  split; [by apply fmap_sublist|]. split; [|apply scan_page_all].
  eapply sublist_NoDup; [apply scan_items_NoDup|]. by apply fmap_sublist.
Qed.

Lemma C9_filtered_subsequence_of_all_witness :
  ∃ kept,
    (serve (search demo_config demo_env (query "")) beach_world).1
    = Ok (mkResponse 200
            (Images (image_with_url demo_config <$> scan_page demo_env beach_world)))
    ∧ kept `sublist_of` scan_page demo_env beach_world
    ∧ sunset_images = image_with_url demo_config <$> kept
    ∧ sunset_images `sublist_of` image_with_url demo_config <$> scan_page demo_env beach_world
    ∧ NoDup (imageId <$> kept)
    ∧ (one_page demo_env beach_world → scan_page demo_env beach_world = scan_items beach_world).
Proof.
  apply (C9_filtered_subsequence_of_all demo_config demo_env (query "sunset") (query "")
           beach_world (mkResponse 200 (Images sunset_images)) sunset_images);
    [vm_compute; reflexivity | reflexivity | reflexivity | vm_compute; reflexivity].
Defined.

(** ** What the operations do to the table *)

Section Effects.

Variables (cfg : Config) (env : Env).

Lemma no_put_nil : no_put [].
Proof. intros tbl item H. by apply elem_of_nil in H. Qed.

Lemma no_put_cons c cs :
  (∀ tbl item, c ≠ PutItem tbl item) → no_put cs → no_put (c :: cs).
Proof.
  intros Hc Hcs tbl item [Heq|H]%elem_of_cons; [by eapply Hc|by eapply Hcs].
Qed.

Lemma generate_effect req w :
  ∃ cs, (serve (generate_presigned_url cfg env req) w).2 = mkSt w cs ∧ no_put cs.
Proof.
  run_handler generate_presigned_url.
  destruct (isEmpty _); cbn [negb].
  - unfold_js.
    destruct (js_replace_ws _) as [name|]; cbn [world calls app].
    + eexists. split; [by destruct (raises env _)|].
      apply no_put_cons; [done|apply no_put_nil].
    + exists []. split; [done|apply no_put_nil].
  - exists []. split; [done|apply no_put_nil].
Qed.

Lemma delete_effect req w :
  ∃ w' cs, (serve (delete_image cfg env req) w).2 = mkSt w' cs ∧ no_put cs
    ∧ (table w' = table w ∨ ∃ k, table w' = delete k (table w)).
Proof.
  run_handler delete_image.
  destruct (isEmpty _); cbn [negb].
  - unfold_js.
    destruct (key_string _) as [k|]; cbn [world calls app].
    + destruct (raises env (DeleteObject _ _)).
      * eexists w, _. split; [done|]. split; [|by left].
        apply no_put_cons; [done|apply no_put_nil].
      * destruct (raises env (DeleteItem _ _)).
        -- eexists (delete_object k w), _. split; [done|]. split; [|by left].
           repeat (apply no_put_cons; [done|]). apply no_put_nil.
        -- eexists (delete_item k (delete_object k w)), _. split; [done|].
           split; [|right; by exists k].
           repeat (apply no_put_cons; [done|]). apply no_put_nil.
    + exists w, []. split; [done|]. split; [apply no_put_nil|by left].
  - exists w, []. split; [done|]. split; [apply no_put_nil|by left].
Qed.

Lemma save_effect req w :
  (serve (save_metadata cfg env req) w).2 = mkSt w []
  ∨ ∃ k call,
      get (body req) "key" = Some (JStr k)
      ∧ call = PutItem (DYNAMODB_TABLE_NAME cfg) (("imageId", JStr k) :: written_attrs env req)
      ∧ ((serve (save_metadata cfg env req) w).2 = mkSt w [call]
         ∨ (serve (save_metadata cfg env req) w).2
           = mkSt (mkWorld (objects w) (<[k := written_attrs env req]> (table w))) [call]).
Proof.
  destruct (isEmpty (validationResult save_metadata_chains (body req))) eqn:Hval.
  - destruct (save_valid_inv _ Hval) as ((k & Hkey & _) & _ & _).
    rewrite (save_run cfg env req w k Hval Hkey). cbv zeta.
    destruct (storable env req); [|by left].
    right. eexists k, _. split; [done|]. split; [reflexivity|].
    destruct (raises env _); [by left|by right].
  - left. by rewrite save_rejected.
Qed.

(** The recorder reads [key], [caption] and [tags] of the body and the
    caller's address, and nothing else of the request. *)
Lemma save_reads_three_fields req req' w :
  get (body req') "key" = get (body req) "key" →
  get (body req') "caption" = get (body req) "caption" →
  get (body req') "tags" = get (body req) "tags" →
  ip req' = ip req →
  serve (save_metadata cfg env req') w = serve (save_metadata cfg env req) w.
Proof.
  intros Hk Hc Ht Hip.
  unfold serve, save_metadata, save_item, validationResult, save_metadata_chains, run_chain.
  cbn [flat_map chain_field chain_optional chain_validators].
  by rewrite Hk, Hc, Ht, Hip.
Qed.

End Effects.

(** C10. Whatever the operation and the request: a record put to the
    table has exactly the fields [imageId], [caption], [tags],
    [uploadTime] and [uploaderId]; a record found in the table afterwards
    is either the record that was there before, unchanged, or the whole
    record the recorder built from this request, which owes nothing to
    the record it replaces; and two requests to the recorder that agree
    on [key], [caption], [tags] and the caller's address have the same
    outcome, whatever else their bodies carry. *)
Theorem C10_records_written_whole cfg env r req w :
  let st' := (serve (handle cfg env r req) w).2 in
  (∀ tbl item, PutItem tbl item ∈ calls st' →
     r = PostSaveMetadata ∧ item.*1 = record_fields
     ∧ ∃ k, item = ("imageId", JStr k) :: written_attrs env req)
  ∧ (∀ k new, table (world st') !! k = Some new →
       table w !! k = Some new
       ∨ (r = PostSaveMetadata
          ∧ get (body req) "key" = Some (JStr k)
          ∧ new = written_attrs env req
          ∧ "imageId" :: new.*1 = record_fields))
  ∧ (∀ req',
       get (body req') "key" = get (body req) "key" →
       get (body req') "caption" = get (body req) "caption" →
       get (body req') "tags" = get (body req) "tags" →
       ip req' = ip req →
       serve (save_metadata cfg env req') w = serve (save_metadata cfg env req) w).
Proof.
  intros st'. split; [|split]; [| |intros req'; by apply save_reads_three_fields].
  - intros tbl item Hin. subst st'. destruct r; cbn [handle] in Hin.
    + destruct (generate_effect cfg env req w) as (cs & Hst & Hno).
      rewrite Hst in Hin. by apply Hno in Hin.
    + destruct (save_effect cfg env req w) as [Hst|(k & call & Hkey & -> & [Hst|Hst])];
        rewrite Hst in Hin; cbn [calls] in Hin.
      * by apply elem_of_nil in Hin.
      * apply list_elem_of_singleton in Hin. injection Hin as -> ->. eauto.
      * apply list_elem_of_singleton in Hin. injection Hin as -> ->. eauto.
    + rewrite search_state in Hin. cbn [calls] in Hin.
      by apply list_elem_of_singleton in Hin.
    + destruct (delete_effect cfg env req w) as (w' & cs & Hst & Hno & _).
      rewrite Hst in Hin. by apply Hno in Hin.
    + by apply elem_of_nil in Hin.
    + by apply elem_of_nil in Hin.
  - intros k new Hlook. subst st'. destruct r; cbn [handle] in Hlook.
    + destruct (generate_effect cfg env req w) as (cs & Hst & _).
      rewrite Hst in Hlook. by left.
    + destruct (save_effect cfg env req w) as [Hst|(k' & call & Hkey & _ & [Hst|Hst])];
        rewrite Hst in Hlook; cbn [world table] in Hlook; [by left..|].
      apply lookup_insert_Some in Hlook as [[<- <-]|[_ Hlook]]; [by right|by left].
    + rewrite search_state in Hlook. by left.
    + destruct (delete_effect cfg env req w) as (w' & cs & Hst & _ & [Hw|[k' Hw]]).
      * rewrite Hst in Hlook. cbn [world] in Hlook. rewrite Hw in Hlook. by left.
      * rewrite Hst in Hlook. cbn [world] in Hlook. rewrite Hw in Hlook.
        apply lookup_delete_Some in Hlook as [_ Hlook]. by left.
    + by left.
    + by left.
Qed.

(** ** Every outcome of every route *)

Section Outcomes.

Variables (cfg : Config) (env : Env).

Lemma isEmpty_false_ne {A} (l : list A) : isEmpty l = false → l ≠ [].
Proof. by destruct l. Qed.

Lemma generate_outcomes req w :
  (accepted PostGeneratePresignedUrl (body req) = false
   ∧ ∃ errors, errors ≠ []
       ∧ serve (generate_presigned_url cfg env req) w
         = (Ok (mkResponse 400 (ValidationErrors errors)), mkSt w []))
  ∨ (accepted PostGeneratePresignedUrl (body req) = true
     ∧ ∃ opts,
         serve (generate_presigned_url cfg env req) w
         = (Ok (if raises env (CreatePresignedPost opts)
                then mkResponse 500 (ErrorMessage "Failed to generate upload URL")
                else mkResponse 200
                       (PresignedUpload (url (presigned env opts))
                                        (fields (presigned env opts)) (Key opts))),
            mkSt w [CreatePresignedPost opts])).
Proof.
  cbn [accepted]. rewrite <- generate_validation.
  destruct (isEmpty _) eqn:Hval.
  - right. split; [done|].
    pose proof Hval as Hv. rewrite generate_validation in Hv.
    apply andb_prop in Hv as [(name & Hname & _)%nonempty_string_inv _].
    exists {| Bucket := S3_BUCKET_NAME cfg;
              Key := "images/" +:+ pretty (now env) +:+ "-" +:+ replace_ws_hyphen name;
              Conditions := [CondContentLengthRange 0 10485760];
              Fields := []; Expires := 300 |}.
    by rewrite (generate_run cfg env req w name Hval Hname).
  - left. split; [done|]. eexists. split; [by apply isEmpty_false_ne|].
    by apply generate_rejected.
Qed.

Lemma save_outcomes req w :
  (accepted PostSaveMetadata (body req) = false
   ∧ ∃ errors, errors ≠ []
       ∧ serve (save_metadata cfg env req) w
         = (Ok (mkResponse 400 (ValidationErrors errors)), mkSt w []))
  ∨ (accepted PostSaveMetadata (body req) = true
     ∧ ∃ k, get (body req) "key" = Some (JStr k) ∧ is_empty k = false
       ∧ let call := PutItem (DYNAMODB_TABLE_NAME cfg)
                       (("imageId", JStr k) :: written_attrs env req) in
         serve (save_metadata cfg env req) w
         = if storable env req then
             if raises env call
             then (Ok (mkResponse 500 (ErrorMessage "Failed to save metadata")),
                   mkSt w [call])
             else (Ok (mkResponse 200 (Success "Metadata saved")),
                   mkSt (mkWorld (objects w) (<[k := written_attrs env req]> (table w)))
                        [call])
           else (Ok (mkResponse 500 (ErrorMessage "Failed to save metadata")), mkSt w [])).
Proof.
  cbn [accepted]. rewrite <- save_validation.
  destruct (isEmpty _) eqn:Hval.
  - right. split; [done|].
    destruct (save_valid_inv _ Hval) as ((k & Hkey & Hne) & _ & _).
    exists k. split; [done|]. split; [done|]. by apply save_run.
  - left. split; [done|]. eexists. split; [by apply isEmpty_false_ne|].
    by apply save_rejected.
Qed.

Lemma delete_outcomes req w :
  (accepted PostDeleteImage (body req) = false
   ∧ ∃ errors, errors ≠ []
       ∧ serve (delete_image cfg env req) w
         = (Ok (mkResponse 400 (ValidationErrors errors)), mkSt w []))
  ∨ (accepted PostDeleteImage (body req) = true
     ∧ ∃ k, get (body req) "key" = Some (JStr k) ∧ is_empty k = false
       ∧ let s3 := DeleteObject (S3_BUCKET_NAME cfg) k in
         let db := DeleteItem (DYNAMODB_TABLE_NAME cfg) k in
         let failed := Ok (mkResponse 500 (ErrorMessage "Failed to delete image")) in
         serve (delete_image cfg env req) w
         = if raises env s3 then (failed, mkSt w [s3])
           else if raises env db then (failed, mkSt (delete_object k w) [s3; db])
           else (Ok (mkResponse 200 (Success "Image deleted")),
                 mkSt (delete_item k (delete_object k w)) [s3; db])).
Proof.
  cbn [accepted]. rewrite <- delete_validation.
  destruct (isEmpty _) eqn:Hval.
  - right. split; [done|].
    pose proof Hval as Hv. rewrite delete_validation in Hv.
    apply nonempty_string_inv in Hv as (k & Hkey & Hne).
    exists k. split; [done|]. split; [done|]. by apply delete_run.
  - left. split; [done|]. eexists. split; [by apply isEmpty_false_ne|].
    by apply delete_rejected.
Qed.

Lemma search_outcomes req w :
  ∃ r, serve (search cfg env req) w = (Ok r, mkSt w [Scan (DYNAMODB_TABLE_NAME cfg)])
    ∧ (r = mkResponse 500 (ErrorMessage "Search failed")
       ∨ ∃ kept, kept `sublist_of` scan_items w
           ∧ raises env (Scan (DYNAMODB_TABLE_NAME cfg)) = false
           ∧ r = mkResponse 200 (Images (image_with_url cfg <$> kept))).
Proof.
  assert (∃ r, (serve (search cfg env req) w).1 = Ok r
    ∧ (r = mkResponse 500 (ErrorMessage "Search failed")
       ∨ ∃ kept, kept `sublist_of` scan_items w
           ∧ raises env (Scan (DYNAMODB_TABLE_NAME cfg)) = false
           ∧ r = mkResponse 200 (Images (image_with_url cfg <$> kept)))) as (r & Hr & H).
  { destruct (raises env (Scan (DYNAMODB_TABLE_NAME cfg))) eqn:Hscan.
    { eexists. split; [by apply search_scan_raises|by left]. }
    destruct (blank (query_q req)) eqn:Hblank.
    { rewrite search_blank by done.
      destruct (forallb _ _); eexists; (split; [done|]); [|by left].
      right. exists (scan_page env w). split; [apply scan_page_sublist|done]. }
    destruct (query_q req) as [|s|] eqn:Hq; [done| |].
    - rewrite (search_term cfg env req w s) by done.
      destruct (filter_array _ _) as [kept|] eqn:Hf.
      + destruct (forallb _ _); eexists; (split; [done|]); [|by left].
        right. exists kept. split; [|done].
        etrans; [by eapply filter_array_sublist|apply scan_page_sublist].
      + eexists. split; [done|by left].
    - eexists. split; [by apply search_other|by left]. }
  exists r. split; [|done].
  rewrite (surjective_pairing (serve (search cfg env req) w)).
  by rewrite Hr, search_state.
Qed.

End Outcomes.

(** Case analysis on the route and on every way its handler can end; the
    run of the handler is rewritten to its outcome. *)
Ltac route_cases cfg env r req w :=
  let Hrun := fresh "Hrun" in
  destruct r; cbn [handle];
  [ destruct (generate_outcomes cfg env req w)
      as [(Hacc & errors & Herrors & Hrun)|(Hacc & opts & Hrun)];
    rewrite Hrun; clear Hrun;
    [|destruct (raises env (CreatePresignedPost opts)) eqn:Hsign]
  | destruct (save_outcomes cfg env req w)
      as [(Hacc & errors & Herrors & Hrun)|(Hacc & k & Hkey & Hk & Hrun)];
    cbv zeta in Hrun; rewrite Hrun; clear Hrun;
    [|destruct (storable env req) eqn:Hstore;
      [destruct (raises env (PutItem _ _)) eqn:Hput|]]
  | destruct (search_outcomes cfg env req w)
      as (resp & Hrun & [Hresp|(kept & Hkept & Hscan & Hresp)]);
    rewrite Hrun; clear Hrun; subst resp
  | destruct (delete_outcomes cfg env req w)
      as [(Hacc & errors & Herrors & Hrun)|(Hacc & k & Hkey & Hk & Hrun)];
    cbv zeta in Hrun; rewrite Hrun; clear Hrun;
    [|destruct (raises env (DeleteObject _ _)) eqn:Hs3;
      [|destruct (raises env (DeleteItem _ _)) eqn:Hdb]]
  | unfold serve, health, json, M_ret
  | unfold serve, root, M_ret ].

(** No exception leaves a handler: every request on every route is
    answered, with status 200, 400 or 500. *)
Theorem handle_always_answers cfg env r req w :
  ∃ resp st,
    serve (handle cfg env r req) w = (Ok resp, st)
    ∧ (status resp = 200 ∨ status resp = 400 ∨ status resp = 500).
Proof.
  route_cases cfg env r req w; eexists _, _; (split; [reflexivity|]); cbn [status]; auto.
Qed.

(** A 500 carries the fixed message of its route and nothing of the
    cause; only the four routes under [/api] can answer 500. *)
Theorem internal_error_is_generic cfg env r req w :
  ∃ resp st,
    serve (handle cfg env r req) w = (Ok resp, st)
    ∧ (status resp = 500 →
       api_route r = true ∧ payload resp = ErrorMessage (route_error_message r)).
Proof.
  route_cases cfg env r req w; eexists _, _; (split; [reflexivity|]);
    cbn [status payload]; done.
Qed.

(** A request is answered 400 exactly when its body fails the chains of
    the route: a required field that is not a non-empty string, a
    [caption] that is present and not a string, [tags] that are present
    and not an array.  The 400 carries a list of errors that is not empty,
    and nothing has been called. *)
Theorem bad_request_iff_not_accepted cfg env r req w :
  ∃ resp st,
    serve (handle cfg env r req) w = (Ok resp, st)
    ∧ (status resp = 400 ↔ accepted r (body req) = false)
    ∧ (status resp = 400 →
       st = mkSt w [] ∧ ∃ errors, errors ≠ [] ∧ payload resp = ValidationErrors errors).
Proof.
  route_cases cfg env r req w; eexists _, _; (split; [reflexivity|]);
    cbn [status payload]; try rewrite Hacc; cbn [accepted];
    (split; [by split|]); intros Hstatus; try discriminate Hstatus;
    (split; [done|]); by exists errors.
Qed.

(** The calls of one request: at most one signature for an upload, at
    most one put, exactly one scan, the delete of the object and then
    at most the delete of the record; no call is repeated, and the
    health check and the banner call nothing. *)
Theorem calls_per_route cfg env r req w :
  let cs := calls (serve (handle cfg env r req) w).2 in
  match r with
  | PostGeneratePresignedUrl => cs = [] ∨ ∃ opts, cs = [CreatePresignedPost opts]
  | PostSaveMetadata => cs = [] ∨ ∃ item, cs = [PutItem (DYNAMODB_TABLE_NAME cfg) item]
  | GetSearch => cs = [Scan (DYNAMODB_TABLE_NAME cfg)]
  | PostDeleteImage =>
      cs = [] ∨ ∃ k, cs = [DeleteObject (S3_BUCKET_NAME cfg) k]
                     ∨ cs = [DeleteObject (S3_BUCKET_NAME cfg) k;
                             DeleteItem (DYNAMODB_TABLE_NAME cfg) k]
  | GetHealth | GetRoot => cs = []
  end.
Proof.
  route_cases cfg env r req w; cbn [snd calls]; eauto.
Qed.

(** Only save-metadata and delete-image change the bucket or the table;
    every other route leaves both as they were, whatever the request and
    whatever the services do. *)
Theorem only_save_and_delete_write cfg env r req w :
  world (serve (handle cfg env r req) w).2 = w
  ∨ r = PostSaveMetadata ∨ r = PostDeleteImage.
Proof.
  route_cases cfg env r req w; cbn [snd world]; auto.
Qed.

(** With both services refusing every call, no request changes the
    bucket or the table, no route under [/api] answers 200, and no
    handler goes on to a second call. *)
Theorem outage_changes_nothing cfg env r req w :
  (∀ c, raises env c = true) →
  ∃ resp st,
    serve (handle cfg env r req) w = (Ok resp, st)
    ∧ world st = w
    ∧ (length (calls st) ≤ 1)%nat
    ∧ (api_route r = true → status resp ≠ 200).
Proof.
  intros Hdown.
  route_cases cfg env r req w;
    try (by rewrite Hdown in Hsign); try (by rewrite Hdown in Hput);
    try (by rewrite Hdown in Hs3); try (by rewrite Hdown in Hdb);
    try (by rewrite Hdown in Hscan);
    eexists _, _; (split; [reflexivity|]); cbn [world calls status length api_route];
    repeat split; try done; lia.
Qed.

Lemma outage_changes_nothing_witness :
  ∃ resp st,
    serve (handle demo_config outage_env PostDeleteImage (post [("key", JStr "images/1-a.png")]))
          beach_world = (Ok resp, st)
    ∧ world st = beach_world
    ∧ (length (calls st) ≤ 1)%nat
    ∧ (api_route PostDeleteImage = true → status resp ≠ 200).
Proof.
  apply (outage_changes_nothing demo_config outage_env PostDeleteImage
           (post [("key", JStr "images/1-a.png")]) beach_world).
  intros c. reflexivity.
Defined.

(** ** How the operations act on the table and compose *)

Section Composition.

Variable cfg : Config.

(** Deleting what is in neither the bucket nor the table changes
    nothing. *)
Lemma delete_absent w k :
  k ∉ objects w → table w !! k = None → delete_item k (delete_object k w) = w.
Proof.
  intros Hobj Htab. destruct w as [objs tbl]. cbn in *.
  unfold delete_item, delete_object. cbn [objects table]. f_equal.
  - apply difference_disjoint_L. by apply disjoint_singleton_r.
  - by apply delete_id.
Qed.

Lemma accepted_save_valid b :
  accepted PostSaveMetadata b = true →
  isEmpty (validationResult save_metadata_chains b) = true.
Proof. intros H. by rewrite save_validation. Qed.

End Composition.

(** A request to the recorder, valid or not, accepted by the table or
    not, leaves the bucket as it was and leaves every record whose key
    is not the request's [key] as it was. *)
Theorem save_touches_one_key cfg env req w :
  let w' := world (serve (save_metadata cfg env req) w).2 in
  objects w' = objects w
  ∧ ∀ k', get (body req) "key" ≠ Some (JStr k') → table w' !! k' = table w !! k'.
Proof.
  intros w'. subst w'.
  destruct (save_outcomes cfg env req w)
    as [(_ & errors & _ & Hrun)|(_ & k & Hkey & _ & Hrun)];
    cbv zeta in Hrun; rewrite Hrun; [done|].
  destruct (storable env req); [|done].
  destruct (raises env _); [done|]. cbn [snd world objects table].
  split; [done|]. intros k' Hk'. apply lookup_insert_ne. congruence.
Qed.

(** A request to the remover, whatever its outcome, leaves every object
    and every record whose key is not the request's [key] as it was. *)
Theorem delete_touches_one_key cfg env req w :
  let w' := world (serve (delete_image cfg env req) w).2 in
  ∀ k', get (body req) "key" ≠ Some (JStr k') →
    (k' ∈ objects w' ↔ k' ∈ objects w) ∧ table w' !! k' = table w !! k'.
Proof.
  intros w' k' Hk'. subst w'.
  destruct (delete_outcomes cfg env req w)
    as [(_ & errors & _ & Hrun)|(_ & k & Hkey & _ & Hrun)];
    cbv zeta in Hrun; rewrite Hrun; [done|].
  assert (k ≠ k') as Hne by congruence.
  assert (k' ∈ objects w ∖ {[k]} ↔ k' ∈ objects w) as Hobj.
  { rewrite elem_of_difference, elem_of_singleton. split; [by intros [? _]|].
    intros Hin. split; [done|]. intros Heq. by apply Hne. }
  destruct (raises env (DeleteObject _ _)); [done|].
  destruct (raises env (DeleteItem _ _)); cbn [snd world objects table delete_object delete_item].
  - done.
  - split; [done|]. by apply lookup_delete_ne.
Qed.

(** The remover does not look whether the key exists: when neither the
    object nor the record is there and the services answer, both deletes
    are still sent, the answer is the success message, and nothing has
    changed. *)
Theorem delete_missing_key_succeeds cfg env req w k :
  get (body req) "key" = Some (JStr k) →
  is_empty k = false →
  k ∉ objects w →
  table w !! k = None →
  (∀ c, raises env c = false) →
  serve (delete_image cfg env req) w
  = (Ok (mkResponse 200 (Success "Image deleted")),
     mkSt w [DeleteObject (S3_BUCKET_NAME cfg) k; DeleteItem (DYNAMODB_TABLE_NAME cfg) k]).
Proof.
  intros Hkey Hne Hobj Htab Hquiet.
  rewrite (delete_run cfg env req w k Hkey Hne). cbv zeta.
  rewrite !Hquiet. by rewrite delete_absent.
Qed.

Lemma delete_missing_key_succeeds_witness :
  serve (delete_image demo_config demo_env (post [("key", JStr "images/9-none.png")]))
        beach_world
  = (Ok (mkResponse 200 (Success "Image deleted")),
     mkSt beach_world
          [DeleteObject (S3_BUCKET_NAME demo_config) "images/9-none.png";
           DeleteItem (DYNAMODB_TABLE_NAME demo_config) "images/9-none.png"]).
Proof.
  apply (delete_missing_key_succeeds demo_config demo_env
           (post [("key", JStr "images/9-none.png")]) beach_world "images/9-none.png");
    [reflexivity | reflexivity | by vm_compute | by vm_compute | intros c; reflexivity].
Defined.

(** Deleting is idempotent: after a delete that succeeded, the same
    request succeeds again and leaves the bucket and the table as the
    first delete left them. *)
Theorem delete_again_changes_nothing cfg env1 env2 req w k :
  get (body req) "key" = Some (JStr k) →
  is_empty k = false →
  (∀ c, raises env1 c = false) →
  (∀ c, raises env2 c = false) →
  let w1 := world_after (serve (delete_image cfg env1 req) w) in
  serve (delete_image cfg env2 req) w1
  = (Ok (mkResponse 200 (Success "Image deleted")),
     mkSt w1 [DeleteObject (S3_BUCKET_NAME cfg) k; DeleteItem (DYNAMODB_TABLE_NAME cfg) k]).
Proof.
  intros Hkey Hne Hq1 Hq2 w1. subst w1. unfold world_after.
  rewrite (delete_run cfg env1 req w k Hkey Hne). cbv zeta. rewrite !Hq1.
  cbn [snd world].
  rewrite (delete_run cfg env2 req _ k Hkey Hne). cbv zeta. rewrite !Hq2.
  rewrite delete_absent; [done| |].
  - apply not_elem_of_delete_object.
  - apply lookup_delete_eq.
Qed.

Lemma delete_again_changes_nothing_witness :
  let req := post [("key", JStr "images/1-a.png")] in
  let w1 := world_after (serve (delete_image demo_config demo_env req) beach_world) in
  serve (delete_image demo_config later_env req) w1
  = (Ok (mkResponse 200 (Success "Image deleted")),
     mkSt w1 [DeleteObject (S3_BUCKET_NAME demo_config) "images/1-a.png";
              DeleteItem (DYNAMODB_TABLE_NAME demo_config) "images/1-a.png"]).
Proof.
  intros req.
  apply (delete_again_changes_nothing demo_config demo_env later_env req beach_world
           "images/1-a.png");
    [reflexivity | reflexivity | intros c; reflexivity | intros c; reflexivity].
Defined.

(** A record saved and then deleted under the same key is gone: the
    table is the old table without that key, which is the old table
    itself when the key was new. *)
Theorem save_then_delete cfg env1 env2 req1 req2 w k :
  accepted PostSaveMetadata (body req1) = true →
  get (body req1) "key" = Some (JStr k) →
  get (body req2) "key" = Some (JStr k) →
  (∀ c, raises env1 c = false) →
  (∀ c, raises env2 c = false) →
  let w1 := world_after (serve (save_metadata cfg env1 req1) w) in
  let w2 := world_after (serve (delete_image cfg env2 req2) w1) in
  table w2 = delete k (table w)
  ∧ table w2 !! k = None
  ∧ (table w !! k = None → table w2 = table w).
Proof.
  intros Hacc Hkey1 Hkey2 Hq1 Hq2 w1 w2.
  pose proof (accepted_save_valid _ Hacc) as Hval.
  destruct (save_valid_inv _ Hval) as ((k' & Hk' & Hne) & _ & _).
  rewrite Hkey1 in Hk'. injection Hk' as <-.
  assert (table w2 = delete k (table w)) as Hw2.
  { subst w2 w1. unfold world_after.
    rewrite (save_run cfg env1 req1 w k Hval Hkey1). cbv zeta. rewrite Hq1.
    destruct (storable env1 req1); cbn [snd world];
      rewrite (delete_run cfg env2 req2 _ k Hkey2 Hne); cbv zeta; rewrite !Hq2;
      cbn [snd world table delete_item delete_object]; [|done].
    apply delete_insert_eq. }
  rewrite Hw2. split; [done|]. split; [apply lookup_delete_eq|].
  intros Hnew. by apply delete_id.
Qed.

Lemma save_then_delete_witness :
  let req1 := post [("key", JStr "images/7-g.png"); ("caption", JStr "Pier")] in
  let req2 := post [("key", JStr "images/7-g.png")] in
  let w1 := world_after (serve (save_metadata demo_config demo_env req1) beach_world) in
  let w2 := world_after (serve (delete_image demo_config later_env req2) w1) in
  table w2 = delete "images/7-g.png" (table beach_world)
  ∧ table w2 !! "images/7-g.png" = None
  ∧ (table beach_world !! "images/7-g.png" = None → table w2 = table beach_world).
Proof.
  intros req1 req2.
  apply (save_then_delete demo_config demo_env later_env req1 req2 beach_world
           "images/7-g.png");
    [reflexivity | reflexivity | reflexivity | intros c; reflexivity | intros c; reflexivity].
Defined.

(** ** More on strings: normal forms of queries and file names *)

Section Normalisation.

Lemma lower_char_idemp c : lower_char (lower_char c) = lower_char c.
Proof. destruct c as [[] [] [] [] [] [] [] []]; reflexivity. Qed.

Lemma toLowerCase_idemp s : toLowerCase (toLowerCase s) = toLowerCase s.
Proof.
  induction s as [|c s IH]; [done|]. cbn [toLowerCase].
  by rewrite lower_char_idemp, IH.
Qed.

Lemma is_empty_toLowerCase s : is_empty (toLowerCase s) = is_empty s.
Proof. by destruct s. Qed.

Lemma toLowerCase_trimStart s :
  toLowerCase (trimStart s) = trimStart (toLowerCase s).
Proof.
  induction s as [|c s IH]; [done|]. cbn [trimStart toLowerCase].
  rewrite is_white_lower_char. by destruct (is_white c).
Qed.

Lemma toLowerCase_trimEnd s :
  toLowerCase (trimEnd s) = trimEnd (toLowerCase s).
Proof.
  induction s as [|c s IH]; [done|]. cbn [trimEnd toLowerCase].
  rewrite is_white_lower_char, <- IH, is_empty_toLowerCase.
  by destruct (is_white c && is_empty (trimEnd s)).
Qed.

Lemma toLowerCase_trim s : toLowerCase (trim s) = trim (toLowerCase s).
Proof. unfold trim. by rewrite toLowerCase_trimEnd, toLowerCase_trimStart. Qed.

Lemma trimEnd_idemp s : trimEnd (trimEnd s) = trimEnd s.
Proof.
  induction s as [|c s IH]; [done|]. cbn [trimEnd].
  destruct (is_white c && is_empty (trimEnd s)) eqn:H; [done|].
  cbn [trimEnd]. by rewrite IH, H.
Qed.

Lemma trimStart_fixed s : starts_white s = false → trimStart s = s.
Proof. destruct s as [|c s]; [done|]. cbn. by intros ->. Qed.

Lemma starts_white_trimStart s : starts_white (trimStart s) = false.
Proof.
  induction s as [|c s IH]; [done|]. cbn [trimStart].
  destruct (is_white c) eqn:Hc; [done|]. by cbn.
Qed.

Lemma starts_white_trimEnd s :
  starts_white s = false → starts_white (trimEnd s) = false.
Proof.
  destruct s as [|c s]; [done|]. cbn [starts_white trimEnd].
  intros Hc. by rewrite Hc.
Qed.

Lemma trim_idemp s : trim (trim s) = trim s.
Proof.
  unfold trim. rewrite (trimStart_fixed (trimEnd _)).
  - apply trimEnd_idemp.
  - apply starts_white_trimEnd, starts_white_trimStart.
Qed.

(** A name without white space is its own sanitized form. *)
Lemma replace_ws_go_fixed b s :
  all_chars (λ c, negb (is_white c)) s = true → replace_ws_go b s = s.
Proof.
  revert b. induction s as [|c s IH]; intros b; [done|]. cbn.
  intros [Hc Hs]%andb_prop. destruct (is_white c); [done|]. by rewrite IH.
Qed.

(** Digits end at the first hyphen: a string of digits, a hyphen and a
    rest is split in one way only. *)
Lemma digits_hyphen_split d1 d2 n1 n2 :
  all_chars is_digit d1 = true → all_chars is_digit d2 = true →
  d1 +:+ "-" +:+ n1 = d2 +:+ "-" +:+ n2 → d1 = d2 ∧ n1 = n2.
Proof.
  revert d2. induction d1 as [|c d1 IH]; intros [|c' d2] H1 H2 Heq.
  - by injection Heq.
  - rewrite app_cons in Heq. injection Heq as <- _.
    cbn in H2. by apply andb_prop in H2 as [? _].
  - rewrite app_cons in Heq. injection Heq as -> _.
    cbn in H1. by apply andb_prop in H1 as [? _].
  - rewrite !app_cons in Heq. injection Heq as -> Heq.
    cbn in H1, H2. apply andb_prop in H1 as [_ H1]. apply andb_prop in H2 as [_ H2].
    destruct (IH d2 H1 H2 Heq) as [-> ->]. done.
Qed.

End Normalisation.

(** Sanitizing a file name twice is sanitizing it once, and a name
    without white space is kept as it is: the hyphen put for a run of
    white space is not white space. *)
Theorem sanitized_name_is_stable s :
  replace_ws_hyphen (replace_ws_hyphen s) = replace_ws_hyphen s
  ∧ (all_chars (λ c, negb (is_white c)) s = true → replace_ws_hyphen s = s).
Proof.
  split.
  - apply replace_ws_go_fixed, replace_ws_go_no_white.
  - apply replace_ws_go_fixed.
Qed.

(** Two keys issued, with clocks not before the epoch, are the same key
    exactly when they were issued in the same millisecond for file names
    with the same sanitized form: the time can be read back from the
    key, and nothing else tells two uploads apart. *)
Theorem issued_keys_equal_iff cfg env1 env2 req1 req2 w1 w2 n1 n2 u1 f1 key1 u2 f2 key2 :
  get (body req1) "fileName" = Some (JStr n1) →
  get (body req2) "fileName" = Some (JStr n2) →
  0 ≤ now env1 →
  0 ≤ now env2 →
  (serve (generate_presigned_url cfg env1 req1) w1).1
    = Ok (mkResponse 200 (PresignedUpload u1 f1 key1)) →
  (serve (generate_presigned_url cfg env2 req2) w2).1
    = Ok (mkResponse 200 (PresignedUpload u2 f2 key2)) →
  key1 = key2 ↔ now env1 = now env2 ∧ replace_ws_hyphen n1 = replace_ws_hyphen n2.
Proof.
  intros Hn1 Hn2 Ht1 Ht2 Hr1 Hr2.
  assert (∀ env req w n u f key,
    get (body req) "fileName" = Some (JStr n) →
    (serve (generate_presigned_url cfg env req) w).1
      = Ok (mkResponse 200 (PresignedUpload u f key)) →
    key = "images/" +:+ pretty (now env) +:+ "-" +:+ replace_ws_hyphen n) as Hkey.
  { intros env req w n u f key Hn Hr.
    destruct (generate_outcomes cfg env req w)
      as [(_ & errors & _ & Hrun)|(Hacc & opts & Hrun)].
    { rewrite Hrun in Hr. discriminate Hr. }
    pose proof Hacc as Hval. cbn [accepted] in Hval.
    rewrite <- generate_validation in Hval.
    rewrite (generate_run cfg env req w n Hval Hn) in Hr. cbv zeta in Hr.
    cbn [fst] in Hr. destruct (raises env _); [discriminate Hr|].
    by injection Hr as _ _ <-. }
  rewrite (Hkey _ _ _ _ _ _ _ Hn1 Hr1), (Hkey _ _ _ _ _ _ _ Hn2 Hr2).
  split.
  - intros Heq. apply (inj (String.app "images/")) in Heq.
    destruct (pretty_Z_digits _ Ht1) as [Hd1 _].
    destruct (pretty_Z_digits _ Ht2) as [Hd2 _].
    destruct (digits_hyphen_split _ _ _ _ Hd1 Hd2 Heq) as [Hp Hn].
    split; [|done]. by apply (inj pretty).
  - by intros [-> ->].
Qed.

Lemma issued_keys_equal_iff_witness :
  "images/1700000000000-cat-pic.png" = "images/1700000000000-cat-pic.png"
  ↔ now demo_env = now demo_env
    ∧ replace_ws_hyphen "cat pic.png" = replace_ws_hyphen "cat   pic.png".
Proof.
  apply (issued_keys_equal_iff demo_config demo_env demo_env
           (post [("fileName", JStr "cat pic.png"); ("fileType", JStr "image/png")])
           (post [("fileName", JStr "cat   pic.png"); ("fileType", JStr "image/jpeg")])
           empty_world beach_world "cat pic.png" "cat   pic.png"
           "https://vault.s3.amazonaws.com/" [("key", "images/1700000000000-cat-pic.png")]
           "images/1700000000000-cat-pic.png"
           "https://vault.s3.amazonaws.com/" [("key", "images/1700000000000-cat-pic.png")]
           "images/1700000000000-cat-pic.png");
    [reflexivity | reflexivity | by vm_compute | by vm_compute
    | vm_compute; reflexivity | vm_compute; reflexivity].
Defined.

(** ** More on the search *)

Section SearchMore.

Variables (cfg : Config) (env : Env).

(** The answer to a string query depends on the query through its
    trimmed lower-case form only. *)
Lemma search_result_by_term req1 req2 w s1 s2 :
  query_q req1 = QString s1 →
  query_q req2 = QString s2 →
  trim (toLowerCase s1) = trim (toLowerCase s2) →
  serve (search cfg env req1) w = serve (search cfg env req2) w.
Proof.
  intros Hq1 Hq2 Hterm.
  assert (all_chars is_white s1 = all_chars is_white s2) as Hblank.
  { by rewrite <- !search_term_empty, Hterm. }
  rewrite (surjective_pairing (serve (search cfg env req1) w)),
    (surjective_pairing (serve (search cfg env req2) w)), !search_state.
  f_equal.
  destruct (raises env (Scan (DYNAMODB_TABLE_NAME cfg))) eqn:Hscan.
  { by rewrite !search_scan_raises. }
  destruct (all_chars is_white s2) eqn:Hs2.
  - rewrite !search_blank; [done|done|by rewrite Hq2|done|by rewrite Hq1].
  - by rewrite (search_term cfg env req1 w s1), (search_term cfg env req2 w s2), Hterm.
Qed.

Lemma filter_array_raise_iff {A} (f : A → Res bool) l :
  filter_array f l = Raise ↔ ∃ x, x ∈ l ∧ f x = Raise.
Proof.
  induction l as [|x l IH]; cbn [filter_array].
  - split; [done|]. intros (x & Hx & _). by apply elem_of_nil in Hx.
  - destruct (f x) as [b|] eqn:Hfx; cbn [Res_bind].
    + destruct (filter_array f l) as [r|]; cbn [Res_bind].
      * split; [done|]. intros (y & [->|Hy]%elem_of_cons & Hfy); [congruence|].
        destruct IH as [_ IH]. discriminate IH. eauto.
      * split; [|done]. intros _. destruct IH as [IH _].
        destruct (IH eq_refl) as (y & Hy & Hfy). exists y.
        split; [apply elem_of_cons; by right|done].
    + split; [|done]. intros _. exists x. split; [apply elem_of_cons; by left|done].
Qed.

Lemma tags_tolerated term l :
  forallb (λ t, falsy_or_string (Some t)) l = true →
  ∃ b, some (tag_matches term) l = Ok b.
Proof.
  induction l as [|t l IH]; cbn [forallb some]; [by eexists|].
  intros [Ht Hl]%andb_prop. destruct (IH Hl) as [b Hb].
  unfold tag_matches at 1. unfold falsy_or_string in Ht.
  destruct (truthy (Some t)) eqn:Htruthy.
  - destruct t; try done. cbn [Res_bind].
    destruct (includes _ _); by eexists.
  - cbn [Res_bind]. by eexists.
Qed.

Lemma tags_guard term (v : JsVal) :
  tolerated_tags v = true →
  ∃ b, (if truthy v
        then match v with
             | Some (JArr l) => some (tag_matches term) l
             | _ => Raise
             end
        else Ok false) = Ok b.
Proof.
  unfold tolerated_tags. intros H. destruct (truthy v) eqn:Ht; [|by eexists].
  destruct v as [[| | | |l|]|];
    try (cbn in H; discriminate H); try (cbn in Ht; discriminate Ht).
  by apply tags_tolerated.
Qed.

Lemma caption_guard term (v : JsVal) :
  falsy_or_string v = true →
  ∃ b, (if truthy v
        then match v with
             | Some (JStr s) => Ok (includes (toLowerCase s) term)
             | _ => Raise
             end
        else Ok false) = Ok b.
Proof.
  unfold falsy_or_string. intros H. destruct (truthy v) eqn:Ht; [|by eexists].
  destruct v as [[| | |s| |]|];
    try (cbn in H; discriminate H); try (cbn in Ht; discriminate Ht).
  by eexists.
Qed.

(** The guards of the callback: on a tolerated record it answers. *)
Lemma item_matches_tolerated term item :
  tolerated item = true → ∃ b, item_matches term item = Ok b.
Proof.
  unfold tolerated, item_matches.
  intros [Hcap Htags]%andb_prop.
  destruct (caption_guard term _ Hcap) as [b1 ->].
  destruct (tags_guard term _ Htags) as [b2 ->].
  by eexists.
Qed.

(** What a failed search must have met, on a table without numbers
    beyond the safe range. *)
Lemma search_failure_cause req w :
  safe_table w = true →
  (serve (search cfg env req) w).1 = Ok (mkResponse 500 (ErrorMessage "Search failed")) →
  raises env (Scan (DYNAMODB_TABLE_NAME cfg)) = true
  ∨ query_q req = QOther
  ∨ ∃ s item,
      query_q req = QString s
      ∧ all_chars is_white s = false
      ∧ item ∈ scan_page env w
      ∧ item_matches (trim (toLowerCase s)) item = Raise.
Proof.
  intros Hsafe.
  destruct (raises env (Scan (DYNAMODB_TABLE_NAME cfg))) eqn:Hscan; [by left|].
  destruct (query_q req) as [|s|] eqn:Hq.
  - by rewrite search_blank_page by (by rewrite ?Hq).
  - destruct (all_chars is_white s) eqn:Hs.
    + by rewrite search_blank_page by (by rewrite ?Hq).
    + rewrite (search_term cfg env req w s) by done.
      destruct (filter_array _ _) as [kept|] eqn:Hf.
      * rewrite (safe_table_serialisable cfg w kept Hsafe); [done|].
        etrans; [by eapply filter_array_sublist|apply scan_page_sublist].
      * intros _. right. right.
        apply filter_array_raise_iff in Hf as (item & Hin & Hraise).
        by exists s, item.
  - intros _. right. by left.
Qed.

End SearchMore.

(** Two string queries with the same trimmed lower-case form get the
    same answer from the same table: the search does not tell ["BEACH"],
    ["beach"] and [" Beach "] apart. *)
Theorem search_by_normalised_query cfg env req1 req2 w s1 s2 :
  query_q req1 = QString s1 →
  query_q req2 = QString s2 →
  trim (toLowerCase s1) = trim (toLowerCase s2) →
  (serve (search cfg env req1) w).1 = (serve (search cfg env req2) w).1
  ∧ (serve (search cfg env req1) w).2 = (serve (search cfg env req2) w).2.
Proof.
  intros Hq1 Hq2 Hterm.
  by rewrite (search_result_by_term cfg env req1 req2 w s1 s2).
Qed.

Lemma search_by_normalised_query_witness :
  (serve (search demo_config demo_env (query "BEACH")) beach_world).1
  = (serve (search demo_config demo_env (query " Beach ")) beach_world).1
  ∧ (serve (search demo_config demo_env (query "BEACH")) beach_world).2
    = (serve (search demo_config demo_env (query " Beach ")) beach_world).2.
Proof.
  apply (search_by_normalised_query demo_config demo_env (query "BEACH") (query " Beach ")
           beach_world "BEACH" " Beach "); reflexivity.
Defined.

(** Lower-casing or trimming the query beforehand changes nothing: the
    search answers [q.toLowerCase()] and [q.trim()] as it answers [q]. *)
Theorem search_ignores_case_and_padding cfg env req w s :
  serve (search cfg env (with_query (QString (toLowerCase s)) req)) w
  = serve (search cfg env (with_query (QString s) req)) w
  ∧ serve (search cfg env (with_query (QString (trim s)) req)) w
    = serve (search cfg env (with_query (QString s) req)) w.
Proof.
  split.
  - apply (search_result_by_term cfg env _ _ w (toLowerCase s) s); [done..|].
    by rewrite toLowerCase_idemp.
  - apply (search_result_by_term cfg env _ _ w (trim s) s); [done..|].
    by rewrite toLowerCase_trim, trim_idemp.
Qed.

(** When the search answers 500, on a table without numbers beyond the
    safe range: the scan raised, or [q] is not a string (a repeated or
    bracketed parameter), or [q] is not blank and the callback of the
    filter raises on some record of the scan's page.  One such record is
    enough to fail the whole search. *)
Theorem search_fails_iff cfg env req w :
  safe_table w = true →
  (serve (search cfg env req) w).1 = Ok (mkResponse 500 (ErrorMessage "Search failed"))
  ↔ raises env (Scan (DYNAMODB_TABLE_NAME cfg)) = true
    ∨ query_q req = QOther
    ∨ ∃ s item,
        query_q req = QString s
        ∧ all_chars is_white s = false
        ∧ item ∈ scan_page env w
        ∧ item_matches (trim (toLowerCase s)) item = Raise.
Proof.
  intros Hsafe. split; [by apply search_failure_cause|].
  intros [Hscan|[Hq|(s & item & Hq & Hs & Hin & Hraise)]].
  - by apply search_scan_raises.
  - by apply search_other.
  - destruct (raises env (Scan (DYNAMODB_TABLE_NAME cfg))) eqn:Hscan.
    { by apply search_scan_raises. }
    rewrite (search_term cfg env req w s) by done.
    assert (filter_array (item_matches (trim (toLowerCase s))) (scan_page env w) = Raise)
      as -> by (apply filter_array_raise_iff; eauto).
    done.
Qed.

Lemma search_fails_iff_witness :
  (serve (search demo_config demo_env (query "a")) numeric_tag_world).1
  = Ok (mkResponse 500 (ErrorMessage "Search failed"))
  ↔ raises demo_env (Scan (DYNAMODB_TABLE_NAME demo_config)) = true
    ∨ query_q (query "a") = QOther
    ∨ ∃ s item,
        query_q (query "a") = QString s
        ∧ all_chars is_white s = false
        ∧ item ∈ scan_page demo_env numeric_tag_world
        ∧ item_matches (trim (toLowerCase s)) item = Raise.
Proof.
  apply (search_fails_iff demo_config demo_env (query "a") numeric_tag_world).
  vm_compute. reflexivity.
Defined.

(** The guards [item.caption &&], [item.tags &&] and [tag &&] at work:
    on a table without numbers beyond the safe range whose records have
    a caption that is missing, falsy or a string, and tags that are
    missing, falsy or an array of falsy values and strings, every string
    query is answered 200. *)
Theorem search_answers_on_tolerated_records cfg env req w :
  raises env (Scan (DYNAMODB_TABLE_NAME cfg)) = false →
  query_q req ≠ QOther →
  safe_table w = true →
  Forall (λ item, tolerated item = true) (scan_items w) →
  ∃ kept,
    kept `sublist_of` scan_items w
    ∧ (serve (search cfg env req) w).1
      = Ok (mkResponse 200 (Images (image_with_url cfg <$> kept))).
Proof.
  intros Hscan Hq Hsafe Htol.
  destruct (search_outcomes cfg env req w) as (r & Hrun & [->|(kept & Hsub & _ & ->)]).
  - exfalso.
    assert ((serve (search cfg env req) w).1
            = Ok (mkResponse 500 (ErrorMessage "Search failed"))) as Hfail
      by (by rewrite Hrun).
    apply search_failure_cause in Hfail as [?|[?|(s & item & _ & _ & Hin & Hraise)]];
      [congruence|done| |done].
    rewrite Forall_forall in Htol.
    pose proof (elem_of_sublist _ _ _ Hin (scan_page_sublist env w)) as Hin'.
    destruct (item_matches_tolerated (trim (toLowerCase s)) item (Htol _ Hin'))
      as [b Hb].
    congruence.
  - exists kept. split; [done|]. by rewrite Hrun.
Qed.

Lemma search_answers_on_tolerated_records_witness :
  ∃ kept,
    kept `sublist_of` scan_items sparse_world
    ∧ (serve (search demo_config demo_env (query "pier")) sparse_world).1
      = Ok (mkResponse 200 (Images (image_with_url demo_config <$> kept))).
Proof.
  apply (search_answers_on_tolerated_records demo_config demo_env (query "pier") sparse_world);
    [reflexivity | discriminate | vm_compute; reflexivity |].
  assert (scan_items sparse_world
          = [mkItem "images/5-e.png" [("uploadTime", JNum 1)];
             mkItem "images/6-f.png"
               [("caption", JNull); ("tags", JArr [JStr ""; JNull; JStr "Pier"])]]) as ->
    by (vm_compute; reflexivity).
  repeat constructor.
Defined.

(** The record with [null] for a caption is found through its third tag,
    behind an empty string and a [null]; the record without caption and
    tags is passed over. *)
Example search_sparse_world :
  (serve (search demo_config demo_env (query "pier")) sparse_world).1
  = Ok (mkResponse 200 (Images
      [[("key", Some (JStr "images/6-f.png")); ("caption", Some JNull);
        ("tags", Some (JArr [JStr ""; JNull; JStr "Pier"])); ("uploadTime", None);
        ("presignedGetUrl",
         Some (JStr "https://vault.s3.eu-west-1.amazonaws.com/images/6-f.png"))]])).
Proof. vm_compute. reflexivity. Qed.

(** A stored number beyond the safe range is read back as a BigInt, on
    which the response cannot be serialised: the blank query and the
    query that finds the record are answered 500, the query that passes
    the record over is answered. *)
Example search_refuses_stored_big_number :
  (serve (search demo_config demo_env (query "")) big_number_world).1
  = Ok (mkResponse 500 (ErrorMessage "Search failed"))
  ∧ (serve (search demo_config demo_env (query "harbour")) big_number_world).1
    = Ok (mkResponse 500 (ErrorMessage "Search failed"))
  ∧ (serve (search demo_config demo_env (query "pier")) big_number_world).1
    = Ok (mkResponse 200 (Images [])).
Proof. repeat split; vm_compute; reflexivity. Qed.

(** With pages of one record the search sees the first record of the
    table only: the blank query returns it alone, and a query that
    matches a later record finds nothing. *)
Example search_sees_first_page_only :
  (serve (search demo_config short_page_env (query "")) beach_world).1
  = Ok (mkResponse 200 (Images
      [[("key", Some (JStr "images/3-c.png")); ("caption", Some (JStr "City"));
        ("tags", Some (JArr [])); ("uploadTime", Some (JNum 1700000000000));
        ("presignedGetUrl",
         Some (JStr "https://vault.s3.eu-west-1.amazonaws.com/images/3-c.png"))]]))
  ∧ (serve (search demo_config short_page_env (query "sunset")) beach_world).1
    = Ok (mkResponse 200 (Images [])).
Proof. split; vm_compute; reflexivity. Qed.

Section ShortCircuit.

Variable term : string.

Lemma some_stops_at_match pre t post :
  forallb (λ v, falsy_or_string (Some v)) pre = true →
  is_empty t = false →
  includes (toLowerCase t) term = true →
  some (tag_matches term) (pre ++ JStr t :: post) = Ok true.
Proof.
  intros Hpre Ht Hincl. induction pre as [|v pre IH]; cbn [app some forallb] in *.
  - unfold tag_matches at 1. destruct t as [|c t]; [done|].
    cbn [truthy]. by rewrite Hincl.
  - apply andb_prop in Hpre as [Hv Hpre]. rewrite (IH Hpre).
    unfold tag_matches at 1. unfold falsy_or_string in Hv.
    destruct (truthy (Some v)) eqn:Htruthy; [|done].
    destruct v as [| | |s| |]; try (cbn in Hv; discriminate Hv). cbn [Res_bind].
    destruct (includes (toLowerCase s) term); reflexivity.
Qed.

End ShortCircuit.

(** [some] stops at the first tag that matches: a record whose caption is
    missing, falsy or a string, and whose tags hold a matching string
    behind falsy values and strings only, matches, whatever follows the
    matching tag in the array, a number or an object included. *)
Theorem matching_tag_hides_later_tags term item pre t post :
  falsy_or_string (get (attrs item) "caption") = true →
  get (attrs item) "tags" = Some (JArr (pre ++ JStr t :: post)) →
  forallb (λ v, falsy_or_string (Some v)) pre = true →
  is_empty t = false →
  includes (toLowerCase t) term = true →
  item_matches term item = Ok true.
Proof.
  intros Hcap Htags Hpre Ht Hincl. unfold item_matches.
  destruct (caption_guard term _ Hcap) as [b ->]. rewrite Htags.
  cbn [truthy Res_bind]. rewrite some_stops_at_match by done.
  cbn [Res_bind]. by rewrite orb_true_r.
Qed.

Lemma matching_tag_hides_later_tags_witness :
  item_matches "beach" mixed_tags_item = Ok true.
Proof.
  apply (matching_tag_hides_later_tags "beach" mixed_tags_item [] "Beach" [JNum 5]);
    reflexivity.
Defined.

(** The same record fails a query that its first tag does not match,
    even one that its caption matches: both matches are computed before
    the callback returns. *)
Example caption_match_does_not_save :
  item_matches "harbour" mixed_tags_item = Raise.
Proof. reflexivity. Qed.

Section SafeTable.

Lemma safe_table_spec w :
  safe_table w = true
  ↔ ∀ k a, table w !! k = Some a → forallb (λ kv, safe_json (snd kv)) a = true.
Proof.
  unfold safe_table. rewrite forallb_forall. split.
  - intros H k a Hk. apply (H (mkItem k a)), list_elem_of_In.
    by apply elem_of_scan_items.
  - intros H item Hitem. apply list_elem_of_In, elem_of_scan_items in Hitem.
    by apply (H _ _ Hitem).
Qed.

(** Putting a record that [marshall] took keeps the table free of
    numbers beyond the safe range. *)
Lemma safe_table_insert w k a :
  safe_table w = true →
  forallb (λ kv, safe_json (snd kv)) a = true →
  safe_table (mkWorld (objects w) (<[k := a]> (table w))) = true.
Proof.
  rewrite !safe_table_spec. intros Hw Ha k' a'. cbn [table].
  intros [[_ <-]|[_ Hk']]%lookup_insert_Some; [done|by eapply Hw].
Qed.

End SafeTable.

(** A record that the recorder has just stored is listed by the next
    search with an absent or blank query, under its key, with the
    caption, tags and time written and the constructed URL, when the
    table fits in the page of the scan and holds no number beyond the
    safe range. *)
Theorem saved_record_is_listed cfg env1 env2 req1 req2 w k :
  accepted PostSaveMetadata (body req1) = true →
  get (body req1) "key" = Some (JStr k) →
  storable env1 req1 = true →
  (∀ c, raises env1 c = false) →
  raises env2 (Scan (DYNAMODB_TABLE_NAME cfg)) = false →
  blank (query_q req2) = true →
  safe_table w = true →
  let w1 := world_after (serve (save_metadata cfg env1 req1) w) in
  one_page env2 w1 →
  ∃ images,
    (serve (search cfg env2 req2) w1).1 = Ok (mkResponse 200 (Images images))
    ∧ [("key", Some (JStr k));
       ("caption", Some (supplied_or (JStr "") (get (body req1) "caption")));
       ("tags", Some (supplied_or (JArr []) (get (body req1) "tags")));
       ("uploadTime", Some (JNum (now env1)));
       ("presignedGetUrl",
        Some (JStr ("https://" +:+ S3_BUCKET_NAME cfg +:+ ".s3." +:+ AWS_REGION cfg
                    +:+ ".amazonaws.com/" +:+ k)))] ∈ images.
Proof.
  intros Hacc Hkey Hstore Hq1 Hscan Hblank Hsafe w1 Hpage.
  pose proof (accepted_save_valid _ Hacc) as Hval.
  assert (w1 = mkWorld (objects w) (<[k := written_attrs env1 req1]> (table w))) as Hw1.
  { subst w1. unfold world_after.
    rewrite (save_run cfg env1 req1 w k Hval Hkey). cbv zeta. by rewrite Hstore, Hq1. }
  assert (safe_table w1 = true) as Hsafe1.
  { rewrite Hw1. by apply safe_table_insert. }
  eexists. split.
  { rewrite search_blank_page by done. by rewrite scan_page_all. }
  apply (list_elem_of_fmap_2 (image_with_url cfg) _ (mkItem k (written_attrs env1 req1))).
  apply elem_of_scan_items. rewrite Hw1. cbn [imageId attrs table].
  apply lookup_insert_eq.
Qed.

Lemma saved_record_is_listed_witness :
  let req1 := post [("key", JStr "images/7-g.png"); ("caption", JStr "Pier")] in
  let w1 := world_after (serve (save_metadata demo_config demo_env req1) beach_world) in
  ∃ images,
    (serve (search demo_config later_env (query " ")) w1).1
    = Ok (mkResponse 200 (Images images))
    ∧ [("key", Some (JStr "images/7-g.png"));
       ("caption", Some (supplied_or (JStr "") (get (body req1) "caption")));
       ("tags", Some (supplied_or (JArr []) (get (body req1) "tags")));
       ("uploadTime", Some (JNum (now demo_env)));
       ("presignedGetUrl",
        Some (JStr ("https://" +:+ S3_BUCKET_NAME demo_config +:+ ".s3."
                    +:+ AWS_REGION demo_config +:+ ".amazonaws.com/" +:+ "images/7-g.png")))]
      ∈ images.
Proof.
  intros req1 w1.
  apply (saved_record_is_listed demo_config demo_env later_env req1 (query " ") beach_world
           "images/7-g.png");
    [reflexivity | reflexivity | reflexivity | intros c; reflexivity | reflexivity
    | reflexivity | vm_compute; reflexivity
    | unfold one_page; apply Nat.leb_le; vm_compute; reflexivity].
Defined.

(** After a delete that succeeded, no search, whatever its query,
    returns an object under the deleted key. *)
Theorem deleted_record_is_not_listed cfg env1 env2 req1 req2 w k resp images :
  get (body req1) "key" = Some (JStr k) →
  is_empty k = false →
  (∀ c, raises env1 c = false) →
  let w1 := world_after (serve (delete_image cfg env1 req1) w) in
  (serve (search cfg env2 req2) w1).1 = Ok resp →
  payload resp = Images images →
  ∀ r, r ∈ images → ("key", Some (JStr k)) ∉ r.
Proof.
  intros Hkey Hne Hq1 w1 Hrun Hpay r Hr Hin.
  assert (table w1 !! k = None) as Hgone.
  { subst w1. unfold world_after.
    rewrite (delete_run cfg env1 req1 w k Hkey Hne). cbv zeta. rewrite !Hq1.
    apply lookup_delete_eq. }
  destruct (search_images cfg env2 req2 w1 resp images Hrun Hpay)
    as (kept & Hsub & -> & _ & _).
  apply list_elem_of_fmap in Hr as (item & -> & Hitem).
  apply (elem_of_sublist _ _ _ Hitem), elem_of_scan_items in Hsub.
  unfold image_with_url in Hin.
  repeat (apply elem_of_cons in Hin as [Hin|Hin]; [try discriminate Hin|]).
  - injection Hin as Hk. rewrite <- Hk in Hsub. congruence.
  - by apply elem_of_nil in Hin.
Qed.

Lemma deleted_record_is_not_listed_witness :
  ("key", Some (JStr "images/1-a.png")) ∉ image_with_url demo_config sunset_item.
Proof.
  apply (deleted_record_is_not_listed demo_config demo_env later_env
           (post [("key", JStr "images/1-a.png")]) (query "sunset")
           beach_world "images/1-a.png" (mkResponse 200 (Images sunset_images)) sunset_images);
    [reflexivity | reflexivity | intros c; reflexivity | vm_compute; reflexivity
    | reflexivity | apply list_elem_of_here].
Defined.

Lemma search_blank_returns_all_witness :
  (serve (search demo_config demo_env (query "  ")) numeric_tag_world).1
  = Ok (mkResponse 200 (Images (image_with_url demo_config <$> scan_items numeric_tag_world)))
  ∧ ∀ k a, table numeric_tag_world !! k = Some a →
      image_with_url demo_config (mkItem k a)
      ∈ image_with_url demo_config <$> scan_items numeric_tag_world.
Proof.
  apply (search_blank_returns_all demo_config demo_env (query "  ") numeric_tag_world);
    [reflexivity | reflexivity | vm_compute; reflexivity
    | unfold one_page; apply Nat.leb_le; vm_compute; reflexivity].
Defined.

Lemma search_well_typed_exact_witness :
  ∃ kept,
    (serve (search demo_config demo_env (query " BEACH")) beach_world).1
    = Ok (mkResponse 200 (Images (image_with_url demo_config <$> kept)))
    ∧ kept `sublist_of` scan_page demo_env beach_world
    ∧ (∀ item, item ∈ kept
         ↔ item ∈ scan_page demo_env beach_world
           ∧ term_matches (trim (toLowerCase " BEACH")) item)
    ∧ (one_page demo_env beach_world → scan_page demo_env beach_world = scan_items beach_world).
Proof.
  apply (search_well_typed_exact demo_config demo_env (query " BEACH") beach_world " BEACH");
    [reflexivity | reflexivity | reflexivity | | vm_compute; reflexivity].
  assert (scan_items beach_world
          = [mkItem "images/3-c.png"
               [("caption", JStr "City"); ("tags", JArr []);
                ("uploadTime", JNum 1700000000000); ("uploaderId", JStr "203.0.113.7")];
             mkItem "images/1-a.png"
               [("caption", JStr "Dunes"); ("tags", JArr [JStr "Beach"; JStr "sand"]);
                ("uploadTime", JNum 1700000000000); ("uploaderId", JStr "203.0.113.7")];
             sunset_item]) as ->
    by (vm_compute; reflexivity).
  repeat (constructor; [split; by eexists|]). constructor.
Defined.



Lemma delete_touches_one_key_witness :
  let w' := world (serve (delete_image demo_config demo_env
                            (post [("key", JStr "images/1-a.png")])) beach_world).2 in
  ("images/2-b.png" ∈ objects w' ↔ "images/2-b.png" ∈ objects beach_world)
  ∧ table w' !! "images/2-b.png" = table beach_world !! "images/2-b.png".
Proof.
  apply (delete_touches_one_key demo_config demo_env
           (post [("key", JStr "images/1-a.png")]) beach_world "images/2-b.png").
  discriminate.
Defined.
